(** * SysML Monaco editor: the LSP bridge and the browser-side LSP client

    A shallow embedding of
    - the WebSocket/stdio proxy (lsp-server-proxy.js): the frame encoder of
      the [ws.on("message")] handler and the decode loop of the
      [ls.stdout.on("data")] handler;
    - the browser client (lsp-client.ts, class [SimpleLSPClient]): request
      ids, the pending-request map, timeouts, the initialize handshake;
    - the diagnostics handler of the editor component (sysml-editor.tsx).

    Conventions.  A JavaScript string is the list of its UTF-16 code units,
    a Buffer is the list of its bytes, both as [list Z].  JavaScript numbers
    are modelled by [Z]: every number below is an index, a length or a
    counter, and those are exact in a double up to 2^53.  [console.*] output
    is not part of the model. *)

From Stdlib Require Import ZArith List Lia Bool Ascii String Sorted.
From stdpp Require Import gmap strings list pretty.

Local Open Scope Z_scope.

(** ** JavaScript strings *)

Module Js.

(** A string literal of the source, as code units. *)
Fixpoint lit (s : string) : list Z :=
  match s with
  | EmptyString => []
  | String a s' => Z.of_N (N_of_ascii a) :: lit s'
  end.

(** JSON texts in examples are written with ['] standing for the double
    quote (code unit 34). *)
Definition json_lit (s : string) : list Z :=
  map (fun c => if c =? 39 then 34 else c) (lit s).

Fixpoint startsWith (s p : list Z) {struct p} : bool :=
  match p, s with
  | [], _ => true
  | x :: p', y :: s' => (x =? y) && startsWith s' p'
  | _ :: _, [] => false
  end.

(** The first position at which [needle] occurs in [s]. *)
Fixpoint search (s needle : list Z) : option nat :=
  if startsWith s needle then Some O
  else match s with
       | [] => None
       | _ :: s' => S <$> search s' needle
       end.

(** [s.indexOf(needle)]: the first position at which [needle] occurs, or -1. *)
Definition indexOf (s needle : list Z) : Z :=
  match search s needle with
  | Some k => Z.of_nat k
  | None => -1
  end.

Definition clamp (len x : Z) : Z := Z.min (Z.max x 0) len.

(** [s.substring(a, b)]: both indices are clamped to [0, s.length] and
    swapped when [a > b]. *)
Definition substring (s : list Z) (a b : Z) : list Z :=
  let len := Z.of_nat (length s) in
  let a' := clamp len a in
  let b' := clamp len b in
  let lo := Z.min a' b' in
  let hi := Z.max a' b' in
  take (Z.to_nat (hi - lo)) (drop (Z.to_nat lo) s).

(** [s.substring(a)] *)
Definition substring_from (s : list Z) (a : Z) : list Z :=
  substring s a (Z.of_nat (length s)).

Definition is_digit (c : Z) : bool := (48 <=? c) && (c <=? 57).

Fixpoint take_digits (s : list Z) : list Z :=
  match s with
  | c :: s' => if is_digit c then c :: take_digits s' else []
  | [] => []
  end.

Fixpoint strip_prefix (p s : list Z) : option (list Z) :=
  match p, s with
  | [], _ => Some s
  | x :: p', y :: s' => if x =? y then strip_prefix p' s' else None
  | _ :: _, [] => None
  end.

(** The regular expression [/Content-Length: (\d+)/] tried at the start of
    [s]: the literal, then a greedy non-empty run of digits (group 1). *)
Definition match_Content_Length_here (s : list Z) : option (list Z) :=
  match strip_prefix (lit "Content-Length: ") s with
  | Some rest =>
      match take_digits rest with
      | [] => None
      | ds => Some ds
      end
  | None => None
  end.

(** [s.match(/Content-Length: (\d+)/)]: the leftmost match; the result is
    capture group 1, [None] for [null]. *)
Fixpoint match_Content_Length (s : list Z) : option (list Z) :=
  match match_Content_Length_here s with
  | Some ds => Some ds
  | None =>
      match s with
      | [] => None
      | _ :: s' => match_Content_Length s'
      end
  end.

(** [parseInt] on a string of decimal digits (all the decode loop gives it). *)
Definition parseInt (ds : list Z) : Z :=
  fold_left (fun acc c => acc * 10 + (c - 48)) ds 0.

Fixpoint digits_fuel (fuel : nat) (n : Z) (acc : list Z) : list Z :=
  match fuel with
  | O => acc
  | S fuel' =>
      let acc' := (48 + n mod 10) :: acc in
      if n <? 10 then acc' else digits_fuel fuel' (n / 10) acc'
  end.

(** [`${n}`] for a non-negative integer [n]: its decimal digits. *)
Definition Number_toString (n : Z) : list Z :=
  digits_fuel (S (Z.to_nat (Z.log2 n))) n [].

End Js.

(** ** UTF-8, as [Buffer.prototype.toString], [Buffer.byteLength] and
       [stream.write(string)] use it *)

Module Utf8.

Definition REPLACEMENT : Z := 0xFFFD.

Definition is_high_surrogate (u : Z) : bool := (0xD800 <=? u) && (u <=? 0xDBFF).
Definition is_low_surrogate (u : Z) : bool := (0xDC00 <=? u) && (u <=? 0xDFFF).

Definition continuation (x : Z) : Z := Z.lor 0x80 (Z.land x 0x3F).

Definition encode_code_point (cp : Z) : list Z :=
  if cp <? 0x80 then [cp]
  else if cp <? 0x800 then
    [Z.lor 0xC0 (Z.shiftr cp 6); continuation cp]
  else if cp <? 0x10000 then
    [Z.lor 0xE0 (Z.shiftr cp 12); continuation (Z.shiftr cp 6); continuation cp]
  else
    [Z.lor 0xF0 (Z.shiftr cp 18); continuation (Z.shiftr cp 12);
     continuation (Z.shiftr cp 6); continuation cp].

(** String to bytes: surrogate pairs are combined, a lone surrogate is
    written as U+FFFD. *)
Fixpoint encode (s : list Z) : list Z :=
  match s with
  | [] => []
  | u :: rest =>
      if is_high_surrogate u then
        match rest with
        | l :: rest' =>
            if is_low_surrogate l then
              encode_code_point (0x10000 + (u - 0xD800) * 0x400 + (l - 0xDC00))
                ++ encode rest'
            else encode_code_point REPLACEMENT ++ encode rest
        | [] => encode_code_point REPLACEMENT
        end
      else if is_low_surrogate u then encode_code_point REPLACEMENT ++ encode rest
      else encode_code_point u ++ encode rest
  end.

(** [Buffer.byteLength(s, "utf8")] *)
Definition byteLength (s : list Z) : Z := Z.of_nat (length (encode s)).

Definition code_units (cp : Z) : list Z :=
  if cp <? 0x10000 then [cp]
  else [0xD800 + Z.shiftr (cp - 0x10000) 10; 0xDC00 + Z.land (cp - 0x10000) 0x3FF].

(** The decoder's state between two bytes: the code point under
    construction, how many continuation bytes are still needed, and the
    range allowed for the next one. *)
Record pending := Pending { code_point : Z; needed : nat; lower : Z; upper : Z }.

(** A byte met with no sequence open. *)
Definition lead (b : Z) : list Z * option pending :=
  if b <=? 0x7F then ([b], None)
  else if (0xC2 <=? b) && (b <=? 0xDF) then
    ([], Some (Pending (Z.land b 0x1F) 1 0x80 0xBF))
  else if (0xE0 <=? b) && (b <=? 0xEF) then
    ([], Some (Pending (Z.land b 0xF) 2
                 (if b =? 0xE0 then 0xA0 else 0x80)
                 (if b =? 0xED then 0x9F else 0xBF)))
  else if (0xF0 <=? b) && (b <=? 0xF4) then
    ([], Some (Pending (Z.land b 0x7) 3
                 (if b =? 0xF0 then 0x90 else 0x80)
                 (if b =? 0xF4 then 0x8F else 0xBF)))
  else ([REPLACEMENT], None).

(** Bytes to string: an ill-formed or truncated sequence decodes to U+FFFD
    and the byte that broke it is decoded afresh. *)
Fixpoint decode_from (st : option pending) (bs : list Z) : list Z :=
  match bs with
  | [] => match st with None => [] | Some _ => [REPLACEMENT] end
  | b :: bs' =>
      match st with
      | None => let (out, st') := lead b in out ++ decode_from st' bs'
      | Some p =>
          if (lower p <=? b) && (b <=? upper p) then
            let cp := Z.lor (Z.shiftl (code_point p) 6) (Z.land b 0x3F) in
            match needed p with
            | S (S n) => decode_from (Some (Pending cp (S n) 0x80 0xBF)) bs'
            | _ => code_units cp ++ decode_from None bs'
            end
          else
            let (out, st') := lead b in
            REPLACEMENT :: out ++ decode_from st' bs'
      end
  end.

(** [buf.toString()] *)
Definition toString (bs : list Z) : list Z := decode_from None bs.

(** Every code unit (or byte) is below 128. *)
Definition is_ascii (s : list Z) : Prop := Forall (fun u => 0 <= u < 128) s.

End Utf8.

(** ** JSON texts: which strings [JSON.parse] accepts *)

Module Json.

Inductive token :=
| LBrace | RBrace | LBracket | RBracket | Colon | Comma | Scalar | Str.

Definition is_ws (c : Z) : bool :=
  (c =? 32) || (c =? 9) || (c =? 10) || (c =? 13).

Definition is_hex (c : Z) : bool :=
  Js.is_digit c || ((65 <=? c) && (c <=? 70)) || ((97 <=? c) && (c <=? 102)).

Definition is_simple_escape (c : Z) : bool :=
  (c =? 34) || (c =? 92) || (c =? 47) || (c =? 98) || (c =? 102)
  || (c =? 110) || (c =? 114) || (c =? 116).

(** The rest of the input after the closing quote of a string. *)
Fixpoint string_rest (s : list Z) : option (list Z) :=
  match s with
  | [] => None
  | c :: s' =>
      if c =? 34 then Some s'
      else if c =? 92 then
        match s' with
        | e :: s'' =>
            if is_simple_escape e then string_rest s''
            else if e =? 117 then
              match s'' with
              | h1 :: h2 :: h3 :: h4 :: s3 =>
                  if is_hex h1 && is_hex h2 && is_hex h3 && is_hex h4
                  then string_rest s3 else None
              | _ => None
              end
            else None
        | [] => None
        end
      else if c <? 32 then None
      else string_rest s'
  end.

Fixpoint skip_digits (s : list Z) : list Z :=
  match s with
  | c :: s' => if Js.is_digit c then skip_digits s' else s
  | [] => []
  end.

(** One or more digits. *)
Definition digits1 (s : list Z) : option (list Z) :=
  match s with
  | c :: s' => if Js.is_digit c then Some (skip_digits s') else None
  | [] => None
  end.

Definition int_part (s : list Z) : option (list Z) :=
  match s with
  | 48 :: s' => Some s'
  | _ => digits1 s
  end.

Definition frac_part (s : list Z) : option (list Z) :=
  match s with
  | 46 :: s' => digits1 s'
  | _ => Some s
  end.

Definition exp_part (s : list Z) : option (list Z) :=
  match s with
  | c :: s' =>
      if (c =? 101) || (c =? 69) then
        match s' with
        | sg :: s'' => if (sg =? 43) || (sg =? 45) then digits1 s'' else digits1 s'
        | [] => None
        end
      else Some s
  | [] => Some s
  end.

(** The rest of the input after a number. *)
Definition number_rest (s : list Z) : option (list Z) :=
  let s1 := match s with 45 :: s' => s' | _ => s end in
  match int_part s1 with
  | Some s2 => match frac_part s2 with
               | Some s3 => exp_part s3
               | None => None
               end
  | None => None
  end.

Definition lex1 (s : list Z) : option (token * list Z) :=
  match s with
  | [] => None
  | c :: s' =>
      if c =? 123 then Some (LBrace, s')
      else if c =? 125 then Some (RBrace, s')
      else if c =? 91 then Some (LBracket, s')
      else if c =? 93 then Some (RBracket, s')
      else if c =? 58 then Some (Colon, s')
      else if c =? 44 then Some (Comma, s')
      else if c =? 34 then option_map (pair Str) (string_rest s')
      else if (c =? 45) || Js.is_digit c then option_map (pair Scalar) (number_rest s)
      else match Js.strip_prefix (Js.lit "true") s with
           | Some r => Some (Scalar, r)
           | None =>
           match Js.strip_prefix (Js.lit "false") s with
           | Some r => Some (Scalar, r)
           | None => option_map (pair Scalar) (Js.strip_prefix (Js.lit "null") s)
           end
           end
  end.

Fixpoint skip_ws (s : list Z) : list Z :=
  match s with
  | c :: s' => if is_ws c then skip_ws s' else s
  | [] => []
  end.

(** The tokens of the text, [None] on a lexical error.  Every token takes
    at least one code unit, so [length s] rounds are enough. *)
Fixpoint lex (fuel : nat) (s : list Z) : option (list token) :=
  match skip_ws s with
  | [] => Some []
  | s1 =>
      match fuel with
      | O => None
      | S fuel' =>
          match lex1 s1 with
          | Some (t, rest) => option_map (cons t) (lex fuel' rest)
          | None => None
          end
      end
  end.

Inductive container := Arr | Obj.

Inductive expect :=
| Value          (* a value must start here *)
| ArrStart       (* just after [[]: a value or []] *)
| ObjStart       (* just after [{]: a key or [}] *)
| Key            (* after a comma inside an object *)
| KeyColon       (* after a key *)
| After.         (* a value has just ended *)

Definition parse_step (st : expect * list container) (t : token)
  : option (expect * list container) :=
  let (e, stack) := st in
  let value :=
    match t with
    | Scalar | Str => Some (After, stack)
    | LBracket => Some (ArrStart, Arr :: stack)
    | LBrace => Some (ObjStart, Obj :: stack)
    | _ => None
    end in
  match e with
  | Value => value
  | ArrStart =>
      match t, stack with
      | RBracket, Arr :: stack' => Some (After, stack')
      | _, _ => value
      end
  | ObjStart =>
      match t, stack with
      | RBrace, Obj :: stack' => Some (After, stack')
      | Str, _ => Some (KeyColon, stack)
      | _, _ => None
      end
  | Key => match t with Str => Some (KeyColon, stack) | _ => None end
  | KeyColon => match t with Colon => Some (Value, stack) | _ => None end
  | After =>
      match t, stack with
      | Comma, Arr :: _ => Some (Value, stack)
      | RBracket, Arr :: stack' => Some (After, stack')
      | Comma, Obj :: _ => Some (Key, stack)
      | RBrace, Obj :: stack' => Some (After, stack')
      | _, _ => None
      end
  end.

Fixpoint parse_tokens (st : expect * list container) (ts : list token) : bool :=
  match ts with
  | [] => match st with (After, []) => true | _ => false end
  | t :: ts' =>
      match parse_step st t with
      | Some st' => parse_tokens st' ts'
      | None => false
      end
  end.

(** [JSON.parse(text)] returns (rather than throws). *)
Definition parses (text : list Z) : bool :=
  match lex (length text) text with
  | Some ts => parse_tokens (Value, []) ts
  | None => false
  end.

End Json.

(** ** The proxy: one browser connection bridged to one language server *)

Module Proxy.

Import Js.

Definition CRLFCRLF : list Z := [13; 10; 13; 10].

(** [WebSocket.OPEN] *)
Definition OPEN : Z := 1.

(** What one connection owns: the decode [buffer] of the stdout handler,
    the socket's [readyState], and the two outputs, the byte stream written
    to the server's stdin and the messages sent to the browser. *)
Record session := Session {
  buffer : list Z;
  readyState : Z;
  stdin : list Z;
  ws_sent : list (list Z)
}.

Definition connection (readyState : Z) : session := Session [] readyState [] [].

(** The frame of the [ws.on("message")] handler:
    [`Content-Length: ${contentLength}\r\n\r\n${messageStr}`] with
    [contentLength = Buffer.byteLength(messageStr, "utf8")]. *)
Definition lspMessage (messageStr : list Z) : list Z :=
  let contentLength := Utf8.byteLength messageStr in
  lit "Content-Length: " ++ Number_toString contentLength ++ CRLFCRLF ++ messageStr.

(** The text of a frame that declares [n]: the header, the blank line, the
    body. *)
Definition frame_text (n : Z) (body : list Z) : list Z :=
  lit "Content-Length: " ++ Number_toString n ++ CRLFCRLF ++ body.

(** [ws.on("message", message => ...)]: the frame is written to stdin. *)
Definition ws_on_message (s : session) (message : list Z) : session :=
  let messageStr := Utf8.toString message in
  Session (buffer s) (readyState s) (stdin s ++ Utf8.encode (lspMessage messageStr))
    (ws_sent s).

Section Decoder.

(** [JSON.parse(messageContent)] does not throw. *)
Variable JSON_parse : list Z -> bool.

(** One round of the [while (true)] loop. *)
Inductive round :=
| Break
| Continue (buffer' : list Z) (sent : list (list Z)).

Definition loop_body (readyState : Z) (buffer : list Z) : round :=
  let headerEnd := indexOf buffer CRLFCRLF in
  if headerEnd =? -1 then Break
  else
    let headers := substring buffer 0 headerEnd in
    match match_Content_Length headers with
    | None => Continue (substring_from buffer (headerEnd + 4)) []
    | Some group1 =>
        let contentLength := parseInt group1 in
        let messageStart := headerEnd + 4 in
        let messageEnd := messageStart + contentLength in
        if Z.of_nat (length buffer) <? messageEnd then Break
        else
          let messageContent := substring buffer messageStart messageEnd in
          let buffer' := substring_from buffer messageEnd in
          if JSON_parse messageContent then
            if readyState =? OPEN then Continue buffer' [messageContent]
            else Continue buffer' []
          else Continue buffer' []
    end.

Fixpoint loop (fuel : nat) (readyState : Z) (buffer : list Z)
  : list (list Z) * list Z :=
  match fuel with
  | O => ([], buffer)
  | S fuel' =>
      match loop_body readyState buffer with
      | Break => ([], buffer)
      | Continue buffer' sent =>
          let (more, rest) := loop fuel' readyState buffer' in
          (sent ++ more, rest)
      end
  end.

(** The whole loop: the messages sent to the browser and the buffer left.
    Every round that continues drops at least four code units, so
    [length buffer] rounds are never used up ([loop_enough] below). *)
Definition drain (readyState : Z) (buffer : list Z) : list (list Z) * list Z :=
  loop (S (length buffer)) readyState buffer.

(** [ls.stdout.on("data", data => ...)] *)
Definition stdout_on_data (s : session) (data : list Z) : session :=
  let (sent, rest) := drain (readyState s) (buffer s ++ Utf8.toString data) in
  Session rest (readyState s) (stdin s) (ws_sent s ++ sent).

(** Chunks arriving one after the other. *)
Definition stdout_on_chunks (s : session) (chunks : list (list Z)) : session :=
  fold_left stdout_on_data chunks s.

End Decoder.

End Proxy.

(** ** The browser client: [SimpleLSPClient] *)

Module Client.

(** A JavaScript value as far as the client looks into it. *)
#[warnings="-register-all"]
Inductive value :=
| Undefined
| Null
| Bool (b : bool)
| Num (n : Z)
| Text (s : string)
| Array (items : list value)
| Object (fields : list (string * value)).

Fixpoint field (name : string) (fields : list (string * value)) : value :=
  match fields with
  | [] => Undefined
  | (k, v) :: fields' => if String.eqb k name then v else field name fields'
  end.

Inductive ReadyState := CONNECTING | OPEN | CLOSING | CLOSED.

(** The four statuses; [errored] is ['error']. *)
Inductive status := connecting | connected | disconnected | errored.

(** What [ws.send(JSON.stringify(message))] is given. *)
Inductive outgoing :=
| Request (id : Z) (method : string) (params : value)
| Notification (method : string) (params : value).

(** A parsed incoming message, by the properties [handleMessage] reads:
    [id] ([None] for [undefined]), [method], the message of a truthy
    [error], [result] and [params]. *)
Record incoming := Incoming {
  id : option value;
  method : option string;
  error : option string;
  result : value;
  params : value
}.

(** A call of a promise's [resolve] or [reject]; the latter with
    [new Error(message)]. *)
Inductive settlement :=
| Resolved (result : value)
| Rejected (message : string).

(** Who awaits the promise of a request: the rest of [initialize()], or a
    caller outside the class. *)
Inductive waiter := AwaitedByInitialize | AwaitedByCaller.

(** The object's fields, then what it has done to its surroundings.
    [ws] is [this.ws] with the socket's [readyState], [None] for [null].
    A pending entry stands for the pair of closures stored under the id;
    [timers] holds the timeouts set and neither fired nor cleared, under
    the id their closure captured, with the method it captured.  [sent],
    [settled], [statuses] and [diagnostics] log, oldest first, the calls of
    [ws.send], of the promises' [resolve]/[reject] (by request id), of the
    connection status handler and of the diagnostics handler. *)
Record client := Build_client {
  ws : option ReadyState;
  messageId : Z;
  pendingRequests : gmap Z waiter;
  isInitialized : bool;
  diagnosticsHandler : bool;
  connectionStatusHandler : bool;
  timers : gmap Z string;
  sent : list outgoing;
  settled : list (Z * settlement);
  statuses : list status;
  diagnostics : list (value * value)
}.

(** [new SimpleLSPClient()] *)
Definition new_client : client :=
  Build_client None 0 ∅ false false false ∅ [] [] [] [].

Definition set_ws (c : client) (w : option ReadyState) : client :=
  Build_client w (messageId c) (pendingRequests c) (isInitialized c)
    (diagnosticsHandler c) (connectionStatusHandler c) (timers c) (sent c)
    (settled c) (statuses c) (diagnostics c).

Definition set_isInitialized (c : client) (b : bool) : client :=
  Build_client (ws c) (messageId c) (pendingRequests c) b
    (diagnosticsHandler c) (connectionStatusHandler c) (timers c) (sent c)
    (settled c) (statuses c) (diagnostics c).

Definition set_pendingRequests (c : client) (m : gmap Z waiter) : client :=
  Build_client (ws c) (messageId c) m (isInitialized c)
    (diagnosticsHandler c) (connectionStatusHandler c) (timers c) (sent c)
    (settled c) (statuses c) (diagnostics c).

(** [ws.send(JSON.stringify(message))] *)
Definition ws_send (c : client) (message : outgoing) : client :=
  Build_client (ws c) (messageId c) (pendingRequests c) (isInitialized c)
    (diagnosticsHandler c) (connectionStatusHandler c) (timers c)
    (sent c ++ [message]) (settled c) (statuses c) (diagnostics c).

(** [if (this.connectionStatusHandler) this.connectionStatusHandler(s)] *)
Definition notify_status (c : client) (s : status) : client :=
  if connectionStatusHandler c then
    Build_client (ws c) (messageId c) (pendingRequests c) (isInitialized c)
      (diagnosticsHandler c) (connectionStatusHandler c) (timers c) (sent c)
      (settled c) (statuses c ++ [s]) (diagnostics c)
  else c.

(** The promise of request [id] is settled with [s]. *)
Definition settle (c : client) (id : Z) (s : settlement) : client :=
  Build_client (ws c) (messageId c) (pendingRequests c) (isInitialized c)
    (diagnosticsHandler c) (connectionStatusHandler c) (timers c) (sent c)
    (settled c ++ [(id, s)]) (statuses c) (diagnostics c).

(** [clearTimeout(timeout)] of request [id] *)
Definition clearTimeout (c : client) (id : Z) : client :=
  Build_client (ws c) (messageId c) (pendingRequests c) (isInitialized c)
    (diagnosticsHandler c) (connectionStatusHandler c) (delete id (timers c))
    (sent c) (settled c) (statuses c) (diagnostics c).

(** [this.ws && this.ws.readyState === WebSocket.OPEN] *)
Definition ws_open (c : client) : bool :=
  match ws c with
  | Some OPEN => true
  | _ => false
  end.

(** [connect(url)]: [this.ws = new WebSocket(url)]; the four handlers are
    the events [Ws_open], [Ws_error], [Ws_message], [Ws_close] below. *)
Definition connect (c : client) : client := set_ws c (Some CONNECTING).

Definition setDiagnosticsHandler (c : client) : client :=
  Build_client (ws c) (messageId c) (pendingRequests c) (isInitialized c)
    true (connectionStatusHandler c) (timers c) (sent c)
    (settled c) (statuses c) (diagnostics c).

Definition setConnectionStatusHandler (c : client) : client :=
  Build_client (ws c) (messageId c) (pendingRequests c) (isInitialized c)
    (diagnosticsHandler c) true (timers c) (sent c)
    (settled c) (statuses c) (diagnostics c).

(** [sendNotification(method, params)] *)
Definition sendNotification (c : client) (method : string) (params : value) : client :=
  if negb (ws_open c) then c
  else ws_send c (Notification method params).

(** What the promise returned by a call is, when the call returns. *)
Inductive promise :=
| Settled (s : settlement)     (* already resolved or rejected *)
| Awaiting (id : Z).           (* settled when request [id] is *)

(** [sendRequest(method, params)], its promise awaited by [w]. *)
Definition sendRequest (c : client) (method : string) (params : value) (w : waiter)
  : client * promise :=
  if negb (ws_open c) then (c, Settled (Rejected "WebSocket not connected"))
  else
    let id := messageId c + 1 in
    let c1 :=
      Build_client (ws c) id (<[id := w]> (pendingRequests c)) (isInitialized c)
        (diagnosticsHandler c) (connectionStatusHandler c)
        (<[id := method]> (timers c)) (sent c) (settled c) (statuses c)
        (diagnostics c) in
    (ws_send c1 (Request id method params), Awaiting id).

(** The error of the timeout closure:
    [`Request ${method} (id: ${id}) timed out after 30 seconds`] *)
Definition timeout_message (method : string) (id : Z) : string :=
  "Request " +:+ method +:+ " (id: " +:+ pretty id +:+ ") timed out after 30 seconds".

(** The timeout of request [id] fires. *)
Definition on_timeout (c : client) (id : Z) : client :=
  match timers c !! id with
  | None => c
  | Some method =>
      let c1 := clearTimeout c id in
      match pendingRequests c1 !! id with
      | Some _ =>
          settle (set_pendingRequests c1 (delete id (pendingRequests c1)))
            id (Rejected (timeout_message method id))
      | None => c1
      end
  end.

Definition initialize_params : value :=
  Object [
    ("processId", Null);
    ("clientInfo", Object [("name", Text "Monaco SysML Editor"); ("version", Text "1.0.0")]);
    ("capabilities", Object [
      ("textDocument", Object [
        ("synchronization", Object [
          ("dynamicRegistration", Bool false); ("willSave", Bool false);
          ("willSaveWaitUntil", Bool false); ("didSave", Bool false)]);
        ("completion", Object [("dynamicRegistration", Bool false)]);
        ("hover", Object [("dynamicRegistration", Bool false)])])]);
    ("rootUri", Null);
    ("workspaceFolders", Null)].

(** [initialize()] up to its [await]. *)
Definition initialize (c : client) : client * promise :=
  if isInitialized c then (c, Settled (Resolved Undefined))
  else sendRequest c "initialize" initialize_params AwaitedByInitialize.

(** [initialize()] after its [await], once the request is resolved. *)
Definition initialize_resume (c : client) : client :=
  set_isInitialized (sendNotification c "initialized" (Object [])) true.

(** The stored [resolve] closure of request [id]: the timeout is cleared
    and the promise resolved; the code awaiting it runs before any other
    event is handled. *)
Definition entry_resolve (c : client) (id : Z) (w : waiter) (result : value) : client :=
  let c1 := settle (clearTimeout c id) id (Resolved result) in
  match w with
  | AwaitedByInitialize => initialize_resume c1
  | AwaitedByCaller => c1
  end.

(** The stored [reject] closure of request [id]. *)
Definition entry_reject (c : client) (id : Z) (message : string) : client :=
  settle (clearTimeout c id) id (Rejected message).

(** [this.pendingRequests.get(message.id)]: the keys are numbers. *)
Definition pending_entry (c : client) (message : incoming) : option (Z * waiter) :=
  match id message with
  | Some (Num n) => pair n <$> pendingRequests c !! n
  | _ => None
  end.

(** [handleMessage(message)]; [None] when it throws. *)
Definition handleMessage (c : client) (message : incoming) : option client :=
  match pending_entry c message with
  | Some (n, w) =>
      let c1 := set_pendingRequests c (delete n (pendingRequests c)) in
      match error message with
      | Some msg => Some (entry_reject c1 n msg)
      | None => Some (entry_resolve c1 n w (result message))
      end
  | None =>
      if decide (method message = Some "textDocument/publishDiagnostics") then
        match params message with
        | Undefined | Null => None
        | p =>
            let uri := match p with Object fs => field "uri" fs | _ => Undefined end in
            let ds := match p with Object fs => field "diagnostics" fs | _ => Undefined end in
            if diagnosticsHandler c then
              Some (Build_client (ws c) (messageId c) (pendingRequests c)
                      (isInitialized c) (diagnosticsHandler c)
                      (connectionStatusHandler c) (timers c) (sent c) (settled c)
                      (statuses c) (diagnostics c ++ [(uri, ds)]))
            else Some c
        end
      else Some c
  end.

(** [ws.onmessage]: an exception of [handleMessage] is caught and logged. *)
Definition onmessage (c : client) (message : incoming) : client :=
  match handleMessage c message with
  | Some c' => c'
  | None => c
  end.

(** [ws.onopen] *)
Definition onopen (c : client) : client :=
  notify_status (set_ws c (Some OPEN)) connected.

(** [ws.onerror] *)
Definition onerror (c : client) : client := notify_status c errored.

(** [ws.onclose]; the socket is [CLOSED] by then. *)
Definition onclose (c : client) : client :=
  let c1 := set_ws c (match ws c with Some _ => Some CLOSED | None => None end) in
  notify_status (set_isInitialized c1 false) disconnected.

(** [disconnect()] *)
Definition disconnect (c : client) : client :=
  let c1 := match ws c with Some _ => set_ws c None | None => c end in
  set_isInitialized (set_pendingRequests c1 ∅) false.

(** [getHover(uri, line, character)] *)
Definition getHover (c : client) (uri : string) (line character : Z) : client * promise :=
  sendRequest c "textDocument/hover"
    (Object [("textDocument", Object [("uri", Text uri)]);
             ("position", Object [("line", Num line); ("character", Num character)])])
    AwaitedByCaller.

(** [getSemanticTokens(uri)] *)
Definition getSemanticTokens (c : client) (uri : string) : client * promise :=
  sendRequest c "textDocument/semanticTokens/full"
    (Object [("textDocument", Object [("uri", Text uri)])]) AwaitedByCaller.

(** [didOpenTextDocument(uri, languageId, version, text)] *)
Definition didOpenTextDocument (c : client) (uri languageId : string) (version : Z)
    (text : string) : client :=
  sendNotification c "textDocument/didOpen"
    (Object [("textDocument",
              Object [("uri", Text uri); ("languageId", Text languageId);
                      ("version", Num version); ("text", Text text)])]).

(** [didChangeTextDocument(uri, version, changes)] *)
Definition didChangeTextDocument (c : client) (uri : string) (version : Z)
    (changes : list value) : client :=
  sendNotification c "textDocument/didChange"
    (Object [("textDocument", Object [("uri", Text uri); ("version", Num version)]);
             ("contentChanges", Array changes)]).

(** What happens to a client during one connection: the calls of its
    public methods and the events of its socket and timers.  [connect(url)]
    is not among them: the editor builds a new client for every connection
    and connects it once.  The browser delivers [open] to a connecting
    socket only, a message to an open socket only, and fires a timeout only
    if it is still set. *)
Inductive event :=
| Call_setDiagnosticsHandler
| Call_setConnectionStatusHandler
| Call_initialize
| Call_getHover (uri : string) (line character : Z)
| Call_getSemanticTokens (uri : string)
| Call_didOpenTextDocument (uri languageId : string) (version : Z) (text : string)
| Call_didChangeTextDocument (uri : string) (version : Z) (changes : list value)
| Call_disconnect
| Ws_open
| Ws_error
| Ws_message (message : incoming)
| Ws_close
| Timeout (id : Z).

Definition step (c : client) (e : event) : client :=
  match e with
  | Call_setDiagnosticsHandler => setDiagnosticsHandler c
  | Call_setConnectionStatusHandler => setConnectionStatusHandler c
  | Call_initialize => fst (initialize c)
  | Call_getHover uri line character => fst (getHover c uri line character)
  | Call_getSemanticTokens uri => fst (getSemanticTokens c uri)
  | Call_didOpenTextDocument uri languageId version text =>
      didOpenTextDocument c uri languageId version text
  | Call_didChangeTextDocument uri version changes =>
      didChangeTextDocument c uri version changes
  | Call_disconnect => disconnect c
  | Ws_open => match ws c with Some CONNECTING => onopen c | _ => c end
  | Ws_error => onerror c
  | Ws_message message => if ws_open c then onmessage c message else c
  | Ws_close => onclose c
  | Timeout id => on_timeout c id
  end.

Definition run (c : client) (events : list event) : client :=
  fold_left step events c.

(** The calls of [resolve]/[reject] made for request [id], oldest first. *)
Definition settlements (id : Z) (log : list (Z * settlement)) : list settlement :=
  snd <$> filter (fun p => fst p = id) log.

(** The ids of the requests sent, oldest first. *)
Fixpoint request_ids (log : list outgoing) : list Z :=
  match log with
  | [] => []
  | Request id _ _ :: log' => id :: request_ids log'
  | Notification _ _ :: log' => request_ids log'
  end.

(** One connection: the calls made before connecting, [connect(url)], then
    what happens while the socket lives. *)
Definition session (before after : list event) : client :=
  run (connect (run new_client before)) after.

(** What a response asks of the promise it answers. *)
Definition outcome (message : incoming) : settlement :=
  match error message with
  | Some msg => Rejected msg
  | None => Resolved (result message)
  end.

(** A response to request [n]: [{ id: n, result }] or [{ id: n, error }]. *)
Definition response (n : Z) (error : option string) (result : value) : incoming :=
  Incoming (Some (Num n)) None error result Undefined.

(** What holds of every state a client goes through: the ids sent are
    1, 2, ..., [messageId]; a pending request has its timeout set; a request
    whose timeout is set has not been settled; no request is settled twice
    and none before it is sent. *)
Record Inv (c : client) : Prop := {
  inv_messageId : 0 <= messageId c;
  inv_ids : request_ids (sent c) = seqZ 1 (messageId c);
  inv_pending : forall i w, pendingRequests c !! i = Some w ->
                  1 <= i <= messageId c /\ is_Some (timers c !! i);
  inv_timers : forall i m, timers c !! i = Some m ->
                 1 <= i <= messageId c /\ settlements i (settled c) = [];
  inv_settled : forall i, settlements i (settled c) <> [] -> 1 <= i <= messageId c;
  inv_once : forall i, (length (settlements i (settled c)) <= 1)%nat
}.

(** The message answers a request pending in [c]. *)
Definition answers_pending (c : client) (message : incoming) : Prop :=
  exists n w, id message = Some (Num n) /\ pendingRequests c !! n = Some w.

(** The events that end the wait for request [i]: a message bearing its
    id, its timeout, [disconnect()]. *)
Definition ends_wait (i : Z) (e : event) : bool :=
  match e with
  | Call_disconnect => true
  | Timeout n => bool_decide (n = i)
  | Ws_message message =>
      match id message with
      | Some (Num n) => bool_decide (n = i)
      | _ => false
      end
  | _ => false
  end.

(** Request [i] was sent and is no longer pending. *)
Definition answered (c : client) (i : Z) : Prop :=
  pendingRequests c !! i = None /\ i <= messageId c.

(** [initialize()] has completed on this connection and the socket was
    opened: from then on the client is initialized or its socket is not
    open. *)
Definition initialized_once (c : client) : Prop :=
  ws c <> Some CONNECTING /\ (isInitialized c = false -> ws_open c = false).

End Client.

(** ** The editor component: the problems list fed by the diagnostics
       handler *)

Module Lsp.

Record Position := { line : Z; character : Z }.

Record Range := { start : Position; end_ : Position }.

(** [code] is a number or a string. *)
Inductive Code := CodeNumber (n : Z) | CodeString (s : string).

Record Diagnostic := {
  range : Range;
  severity : option Z;
  message : string;
  code : option Code
}.

End Lsp.

Module Editor.

Inductive Severity := error | warning | info | hint.

Record ErrorItem := {
  line : Z;
  column : Z;
  message : string;
  severity : Severity;
  code : option string;
  uri : string
}.

(** [diagnostic.code?.toString()] *)
Definition code_toString (c : option Lsp.Code) : option string :=
  match c with
  | Some (Lsp.CodeNumber n) => Some (pretty n)
  | Some (Lsp.CodeString s) => Some s
  | None => None
  end.

Definition severity_of (s : option Z) : Severity :=
  match s with
  | Some 1 => error
  | Some 2 => warning
  | Some 3 => info
  | _ => hint
  end.

(** The object built for one diagnostic of [uri]. *)
Definition newError (uri : string) (diagnostic : Lsp.Diagnostic) : ErrorItem :=
  {| line := Lsp.line (Lsp.start (Lsp.range diagnostic)) + 1;
     column := Lsp.character (Lsp.start (Lsp.range diagnostic)) + 1;
     message := Lsp.message diagnostic;
     severity := severity_of (Lsp.severity diagnostic);
     code := code_toString (Lsp.code diagnostic);
     uri := uri |}.

(** The updater the diagnostics handler gives [setCurrentErrors]:
    [prevErrors => [...filteredErrors, ...newErrors]]. *)
Definition publishDiagnostics (uri_ : string) (diagnostics : list Lsp.Diagnostic)
    (prevErrors : list ErrorItem) : list ErrorItem :=
  let filteredErrors := filter (fun error => uri error <> uri_) prevErrors in
  let newErrors := map (newError uri_) diagnostics in
  filteredErrors ++ newErrors.

(** [currentErrors] after a sequence of publishes, oldest first. *)
Definition currentErrors_after (prevErrors : list ErrorItem)
    (publishes : list (string * list Lsp.Diagnostic)) : list ErrorItem :=
  fold_left (fun errors p => publishDiagnostics (fst p) (snd p) errors) publishes prevErrors.

(** The set most recently published for [uri_], empty if there was none. *)
Definition latest (uri_ : string) (publishes : list (string * list Lsp.Diagnostic))
  : list Lsp.Diagnostic :=
  fold_left (fun ds p => if decide (fst p = uri_) then snd p else ds) publishes [].

End Editor.

(** ** The proxy: the language server's process and the end of the socket *)

Module Lifecycle.

Import Proxy.

(** [WebSocket.CLOSING] and [WebSocket.CLOSED] *)
Definition CLOSING : Z := 2.
Definition CLOSED : Z := 3.

(** One connection with its child process: the session of the two data
    handlers; whether the child still runs (it has not exited); [ls.killed];
    and, counted, the calls of [ws.close()] and the SIGTERM signals
    delivered to the child. *)
Record bridge := Bridge {
  wire : session;
  running : bool;
  killed : bool;
  closes : nat;
  sigterms : nat
}.

Definition set_readyState (s : session) (rs : Z) : session :=
  Session (buffer s) rs (stdin s) (ws_sent s).

(** [if (ws.readyState === 1) { ws.close(); }]: an open socket starts
    closing. *)
Definition close_if_open (b : bridge) : bridge :=
  if readyState (wire b) =? OPEN then
    Bridge (set_readyState (wire b) CLOSING) (running b) (killed b)
      (S (closes b)) (sigterms b)
  else b.

(** [ls.on("error")] *)
Definition ls_on_error (b : bridge) : bridge := close_if_open b.

(** [ls.on("exit")]: the child has exited. *)
Definition ls_on_exit (b : bridge) : bridge :=
  close_if_open (Bridge (wire b) false (killed b) (closes b) (sigterms b)).

(** [ls.kill("SIGTERM")]: a child that still runs gets the signal and
    [ls.killed] becomes true; one that has exited gets nothing. *)
Definition kill (b : bridge) : bridge :=
  if running b then Bridge (wire b) (running b) true (closes b) (S (sigterms b))
  else b.

(** [ws.on("close")]; the socket is [CLOSED] by then. *)
Definition ws_on_close (b : bridge) : bridge :=
  let b1 := Bridge (set_readyState (wire b) CLOSED) (running b) (killed b)
              (closes b) (sigterms b) in
  if negb (killed b1) then kill b1 else b1.

Section Events.

Variable JSON_parse : list Z -> bool.

Inductive event :=
| Ls_stdout (data : list Z)
| Ls_stderr (data : list Z)
| Ls_error
| Ls_exit
| Ws_message (message : list Z)
| Ws_close
| Ws_error.

Definition step (b : bridge) (e : event) : bridge :=
  match e with
  | Ls_stdout data =>
      Bridge (stdout_on_data JSON_parse (wire b) data) (running b) (killed b)
        (closes b) (sigterms b)
  | Ls_stderr _ => b
  | Ls_error => ls_on_error b
  | Ls_exit => ls_on_exit b
  | Ws_message message =>
      Bridge (ws_on_message (wire b) message) (running b) (killed b)
        (closes b) (sigterms b)
  | Ws_close => ws_on_close b
  | Ws_error => b
  end.

Definition run (b : bridge) (events : list event) : bridge := fold_left step events b.

End Events.

(** The connection handler has just run: the socket is open, the child
    spawned. *)
Definition start : bridge := Bridge (connection OPEN) true false 0 0.

End Lifecycle.

(** ** The test script: the same loop, printing what it parses *)

Module TestScript.

Import Js.

Section Loop.

(** [JSON.parse(messageContent)]: the parsed value, [None] when it throws;
    [JSON.stringify(parsed, null, 2)]. *)
Context {V : Type}.
Variable JSON_parse : list Z -> option V.
Variable JSON_stringify : V -> list Z.

(** [JSON.parse(messageContent)] does not throw. *)
Definition accepts (messageContent : list Z) : bool :=
  match JSON_parse messageContent with
  | Some _ => true
  | None => false
  end.

(** One round of the script's loop; [printed] is what the round gives the
    second [console.log] of its [try] block. *)
Inductive round :=
| Break
| Continue (buffer' : list Z) (printed : list (list Z)).

Definition loop_body (buffer : list Z) : round :=
  let headerEnd := indexOf buffer Proxy.CRLFCRLF in
  if headerEnd =? -1 then Break
  else
    let headers := substring buffer 0 headerEnd in
    match match_Content_Length headers with
    | None => Continue (substring_from buffer (headerEnd + 4)) []
    | Some group1 =>
        let contentLength := parseInt group1 in
        let messageStart := headerEnd + 4 in
        let messageEnd := messageStart + contentLength in
        if Z.of_nat (length buffer) <? messageEnd then Break
        else
          let messageContent := substring buffer messageStart messageEnd in
          let buffer' := substring_from buffer messageEnd in
          match JSON_parse messageContent with
          | Some parsed => Continue buffer' [JSON_stringify parsed]
          | None => Continue buffer' []
          end
    end.

Fixpoint loop (fuel : nat) (buffer : list Z) : list (list Z) * list Z :=
  match fuel with
  | O => ([], buffer)
  | S fuel' =>
      match loop_body buffer with
      | Break => ([], buffer)
      | Continue buffer' printed =>
          let (more, rest) := loop fuel' buffer' in
          (printed ++ more, rest)
      end
  end.

(** [ls.stdout.on("data")] of the script: the parsed values as printed,
    and the buffer left. *)
Definition stdout_on_data (buffer : list Z) (data : list Z) : list (list Z) * list Z :=
  let buffer1 := buffer ++ Utf8.toString data in
  loop (S (length buffer1)) buffer1.

End Loop.

End TestScript.

(** ** The editor component: how it drives the client *)

Module Usage.

Import Client.

Definition is_disconnect (e : event) : bool :=
  match e with
  | Call_disconnect => true
  | _ => false
  end.

(** The socket is neither open nor about to open. *)
Definition closed (c : client) : Prop :=
  ws_open c = false /\ ws c <> Some CONNECTING.

(** Every request sent is still pending and unsettled, or was settled
    once. *)
Definition accounted (c : client) : Prop :=
  forall i, 1 <= i <= messageId c ->
    (is_Some (pendingRequests c !! i) /\ settlements i (settled c) = []) \/
    (pendingRequests c !! i = None /\ length (settlements i (settled c)) = 1%nat).

(** A Monaco model as [connectToLSP] uses it: [uri.toString()] and
    [getValue()]. *)
Record model := Model { model_uri : string; model_value : string }.

(** [models.forEach(model => client.didOpenTextDocument(...))] *)
Definition didOpen_all (c : client) (models : list model) : client :=
  fold_left
    (fun c m => didOpenTextDocument c (model_uri m) "sysml" 1 (model_value m))
    models c.


(** [v.name] for a name no prototype defines: the property of an object,
    [undefined] on any other value; [None] when the read throws, as it does
    on [null] and [undefined]. *)
Definition property (v : value) (name : string) : option value :=
  match v with
  | Undefined | Null => None
  | Object fields => Some (field name fields)
  | _ => Some Undefined
  end.

(** [serverCapabilities.capabilities.semanticTokensProvider?.legend];
    [None] when it throws. *)
Definition semanticTokensLegend (serverCapabilities : value) : option value :=
  match property serverCapabilities "capabilities" with
  | None => None
  | Some capabilities =>
      match property capabilities "semanticTokensProvider" with
      | None => None
      | Some semanticTokensProvider =>
          match property semanticTokensProvider "legend" with
          | None => Some Undefined
          | Some legend => Some legend
          end
      end
  end.

(** [connectToLSP] when the socket opens and [initialize()] is answered
    with the result [serverCapabilities]: the status handler is set, the
    socket opens, the handshake completes, the diagnostics handler is set,
    the legend is read and the documents are opened.  When reading the
    legend throws, the [catch] logs the error and sets the status: no
    document is opened. *)
Definition connectToLSP (models : list model) (serverCapabilities : value) : client :=
  let c1 := setConnectionStatusHandler new_client in
  let c2 := step (connect c1) Ws_open in
  let c3 := fst (initialize c2) in
  let c4 := step c3 (Ws_message (response (messageId c3) None serverCapabilities)) in
  let c5 := setDiagnosticsHandler c4 in
  match semanticTokensLegend serverCapabilities with
  | Some _ => didOpen_all c5 models
  | None => c5
  end.

End Usage.

(** ** The editor component: markers, the hover fallback, the file tabs *)

Module Ui.

Inductive MarkerSeverity := Hint | Info | Warning | Error.

Record marker := {
  startLineNumber : Z;
  startColumn : Z;
  endLineNumber : Z;
  endColumn : Z;
  message : string;
  severity : MarkerSeverity;
  code : option string;
  source : string
}.

(** The marker built for one diagnostic. *)
Definition toMarker (diagnostic : Lsp.Diagnostic) : marker :=
  {| startLineNumber := Lsp.line (Lsp.start (Lsp.range diagnostic)) + 1;
     startColumn := Lsp.character (Lsp.start (Lsp.range diagnostic)) + 1;
     endLineNumber := Lsp.line (Lsp.end_ (Lsp.range diagnostic)) + 1;
     endColumn := Lsp.character (Lsp.end_ (Lsp.range diagnostic)) + 1;
     message := Lsp.message diagnostic;
     severity := match Lsp.severity diagnostic with
                 | Some 1 => Error
                 | Some 2 => Warning
                 | Some 3 => Info
                 | _ => Hint
                 end;
     code := Editor.code_toString (Lsp.code diagnostic);
     source := "SysIDE" |}.

(** A position of the editor: [lineNumber] and [column], from 1. *)
Record Position := { lineNumber : Z; column : Z }.

(** The position [provideHover] asks the server about. *)
Definition hover_position (position : Position) : Lsp.Position :=
  {| Lsp.line := lineNumber position - 1; Lsp.character := column position - 1 |}.

(** The test of [markers.find] in the hover fallback. *)
Definition hit (position : Position) (m : marker) : bool :=
  (startLineNumber m <=? lineNumber position) && (lineNumber position <=? endLineNumber m)
  && (startColumn m <=? column position) && (column position <=? endColumn m).

(** What [provideHover] returns: a range (start line and column, end line
    and column) and the contents. *)
Record hover := { hover_range : Z * Z * Z * Z; contents : list string }.

(** The fallback of [provideHover], taken when the server's hover has no
    contents: the first marker that is hit, or [null]. *)
Definition hover_fallback (markers : list marker) (position : Position) : option hover :=
  match List.find (hit position) markers with
  | None => None
  | Some m =>
      Some {| hover_range :=
                (startLineNumber m, startColumn m, endLineNumber m, endColumn m);
              contents := ["**" +:+ source m +:+ "**: " +:+ message m] |}
  end.

Record FileTab := {
  id : string;
  name : string;
  uri : string;
  content : string;
  isDirty : bool
}.

(** The editor widget: the URI of the model it shows and its cursor. *)
Record editor := { shown : option string; cursor : option Position }.

(** The component's state and Monaco's: [openFiles], [activeFileId],
    [currentErrors]; [editorRef.current]; the URIs of the models
    [monaco.editor.getModels()] returns. *)
Record ui := {
  openFiles : list FileTab;
  activeFileId : string;
  currentErrors : list Editor.ErrorItem;
  editorRef : option editor;
  models : list string
}.

Definition find_id (files : list FileTab) (fileId : string) : option FileTab :=
  List.find (fun f => String.eqb (id f) fileId) files.

Definition find_uri (files : list FileTab) (u : string) : option FileTab :=
  List.find (fun f => String.eqb (uri f) u) files.

Definition has_model (ms : list string) (u : string) : bool :=
  existsb (String.eqb u) ms.

(** [switchToFile(fileId)] as a handler that closed over [files] for
    [openFiles]. *)
Definition switchToFile_with (files : list FileTab) (s : ui) (fileId : string) : ui :=
  match find_id files fileId, editorRef s with
  | Some file, Some e =>
      if has_model (models s) (uri file) then
        {| openFiles := openFiles s;
           activeFileId := fileId;
           currentErrors := currentErrors s;
           editorRef := Some {| shown := Some (uri file); cursor := cursor e |};
           models := models s |}
      else s
  | _, _ => s
  end.

(** [switchToFile(fileId)] *)
Definition switchToFile (s : ui) (fileId : string) : ui :=
  switchToFile_with (openFiles s) s fileId.

(** [model.dispose()] of the model of [u]: it leaves [getModels()], and an
    editor showing it shows nothing. *)
Definition dispose (s : ui) (u : string) : ui :=
  {| openFiles := openFiles s;
     activeFileId := activeFileId s;
     currentErrors := currentErrors s;
     editorRef :=
       match editorRef s with
       | Some e =>
           Some {| shown := match shown e with
                            | Some v => if String.eqb v u then None else Some v
                            | None => None
                            end;
                   cursor := cursor e |}
       | None => None
       end;
     models := filter (fun v => v <> u) (models s) |}.

Definition set_openFiles (s : ui) (files : list FileTab) : ui :=
  {| openFiles := files;
     activeFileId := activeFileId s;
     currentErrors := currentErrors s;
     editorRef := editorRef s;
     models := models s |}.

Definition set_currentErrors (s : ui) (errors : list Editor.ErrorItem) : ui :=
  {| openFiles := openFiles s;
     activeFileId := activeFileId s;
     currentErrors := errors;
     editorRef := editorRef s;
     models := models s |}.

(** [closeFile(fileId)].  When the file closed is the active one and no
    file is left in [newFiles], reading [newFiles[0].id] throws: the list is
    already set, the errors are not filtered. *)
Definition closeFile (s : ui) (fileId : string) : ui :=
  if (length (openFiles s) <=? 1)%nat then s
  else
    match find_id (openFiles s) fileId with
    | None => s
    | Some fileToClose =>
        let s1 := if has_model (models s) (uri fileToClose)
                  then dispose s (uri fileToClose) else s in
        let newFiles := filter (fun f => id f <> fileId) (openFiles s) in
        let s2 := set_openFiles s1 newFiles in
        let filter_errors (s' : ui) :=
          set_currentErrors s'
            (filter (fun error => Editor.uri error <> uri fileToClose)
               (currentErrors s')) in
        if String.eqb fileId (activeFileId s) then
          match newFiles with
          | newActiveFile :: _ =>
              filter_errors (switchToFile_with (openFiles s) s2 (id newActiveFile))
          | [] => s2
          end
        else filter_errors s2
    end.

(** [jumpToError(line, column, uri)], with the timeout that sets the
    cursor run at once. *)
Definition jumpToError (s : ui) (line column : Z) (u : string) : ui :=
  let s1 := match find_uri (openFiles s) u with
            | Some file =>
                if negb (String.eqb (id file) (activeFileId s))
                then switchToFile s (id file) else s
            | None => s
            end in
  match editorRef s1 with
  | Some e =>
      {| openFiles := openFiles s1;
         activeFileId := activeFileId s1;
         currentErrors := currentErrors s1;
         editorRef := Some {| shown := shown e;
                              cursor := Some {| lineNumber := line; column := column |} |};
         models := models s1 |}
  | None => s1
  end.

(** What the user and the server do to the component. *)
Inductive action :=
| SwitchTo (fileId : string)
| Close (fileId : string)
| JumpTo (line column : Z) (u : string)
| Publish (u : string) (diagnostics : list Lsp.Diagnostic).

Definition act (s : ui) (a : action) : ui :=
  match a with
  | SwitchTo fileId => switchToFile s fileId
  | Close fileId => closeFile s fileId
  | JumpTo line column u => jumpToError s line column u
  | Publish u diagnostics =>
      set_currentErrors s (Editor.publishDiagnostics u diagnostics (currentErrors s))
  end.

Definition acts (s : ui) (actions : list action) : ui := fold_left act actions s.

(** The two files the component starts with. *)
Definition main_file : FileTab :=
  {| id := "main"; name := "main.sysml"; uri := "file:///main.sysml";
     content := "package MainPackage {
    import LibraryPackage::*;
    
    part MainPart specializes LibraryPart {
        attribute mainAttr : String;
        port mainPort;
    }
}"; isDirty := false |}.

Definition library_file : FileTab :=
  {| id := "library"; name := "library.sysml"; uri := "file:///library.sysml";
     content := "package LibraryPackage {
    part LibraryPart {
        attribute baseAttr : Integer;
        port basePort;
    }
    
    part AnotherLibraryPart {
        attribute anotherAttr : Boolean;
    }
}"; isDirty := false |}.

(** The component after it is mounted: the two files, a model for each, the
    editor showing the first. *)
Definition mounted : ui :=
  {| openFiles := [main_file; library_file];
     activeFileId := "main";
     currentErrors := [];
     editorRef := Some {| shown := Some "file:///main.sysml"; cursor := None |};
     models := ["file:///main.sysml"; "file:///library.sysml"] |}.

(** The tabs are in order: ids and URIs are distinct, a file is open, the
    active file is open, every open file has its model, and the editor
    shows the model of the active file. *)
Record in_order (s : ui) : Prop := {
  ids_distinct : NoDup (map id (openFiles s));
  uris_distinct : NoDup (map uri (openFiles s));
  some_open : openFiles s <> [];
  files_have_models : forall f, f ∈ openFiles s -> has_model (models s) (uri f) = true;
  active_shown : exists f e, f ∈ openFiles s /\ id f = activeFileId s /\
                   editorRef s = Some e /\ shown e = Some (uri f)
}.

End Ui.

(** ** Sample inputs *)

Module Samples.

Import Js.

(** [{"a":1,"b":2}] *)
Definition ab_message : list Z := json_lit "{'a':1,'b':2}".

(** [{"a":"\u00e9"}] with the letter itself, U+00E9: one code unit, two
    bytes in UTF-8. *)
Definition e_acute_message : list Z := json_lit "{'a':'" ++ [233] ++ json_lit "'}".

(** The bytes the encoder writes for it. *)
Definition e_acute_frame : list Z := Utf8.encode (Proxy.lspMessage e_acute_message).

(** The same text with two U+FFFD in place of the letter. *)
Definition replaced_message : list Z :=
  json_lit "{'a':'" ++ [0xFFFD; 0xFFFD] ++ json_lit "'}".

(** A header block without a length, and a body that is not JSON. *)
Definition junk_header : list Z := lit "Content-Type: text/plain".
Definition bad_body : list Z := lit "{oops".

(** A client whose socket has just opened. *)
Definition open_client : Client.client :=
  Client.session [Client.Call_setConnectionStatusHandler] [Client.Ws_open].

(** The same with one hover request outstanding, id 1. *)
Definition hover_pending : Client.client :=
  Client.run open_client [Client.Call_getHover "file:///main.sysml" 0 8].

(** The same with three requests outstanding, ids 1, 2 and 3. *)
Definition three_pending : Client.client :=
  Client.run open_client
    [Client.Call_getHover "file:///main.sysml" 0 8;
     Client.Call_getSemanticTokens "file:///main.sysml";
     Client.Call_getHover "file:///library.sysml" 2 4].

Definition response_1 : Client.incoming :=
  Client.response 1 None (Client.Object [("contents", Client.Text "package MainPackage")]).
Definition response_2 : Client.incoming :=
  Client.response 2 (Some "tokens unavailable") Client.Undefined.
Definition response_3 : Client.incoming := Client.response 3 None Client.Null.

(** What happens while request 1 of [open_client] waits: another request
    is sent and answered, then the socket closes. *)
Definition while_waiting : list Client.event :=
  [Client.Call_getSemanticTokens "file:///main.sysml";
   Client.Ws_message response_2;
   Client.Ws_close].

(** The server's answer to [initialize]. *)
Definition server_capabilities : Client.value :=
  Client.Object [("capabilities", Client.Object [("hoverProvider", Client.Bool true)])].

(** Two diagnostics and three publishes over two documents. *)
Definition unresolved_import : Lsp.Diagnostic :=
  {| Lsp.range := {| Lsp.start := {| Lsp.line := 1; Lsp.character := 11 |};
                     Lsp.end_ := {| Lsp.line := 1; Lsp.character := 25 |} |};
     Lsp.severity := Some 1;
     Lsp.message := "unresolved import";
     Lsp.code := Some (Lsp.CodeString "linking-error") |}.

Definition unused_port : Lsp.Diagnostic :=
  {| Lsp.range := {| Lsp.start := {| Lsp.line := 3; Lsp.character := 8 |};
                     Lsp.end_ := {| Lsp.line := 3; Lsp.character := 16 |} |};
     Lsp.severity := Some 2;
     Lsp.message := "port is never connected";
     Lsp.code := Some (Lsp.CodeNumber 204) |}.

Definition publishes : list (string * list Lsp.Diagnostic) :=
  [("file:///main.sysml", [unresolved_import; unused_port]);
   ("file:///library.sysml", [unused_port]);
   ("file:///main.sysml", [unresolved_import])].



(** Two messages, and the bytes of their frames one after the other. *)
Definition null_result : list Z := json_lit "{'jsonrpc':'2.0','id':1,'result':null}".
Definition two_messages : list (list Z) := [ab_message; null_result].
Definition two_frames : list Z :=
  concat (map (fun m => Utf8.encode (Proxy.lspMessage m)) two_messages).

(** The events of a connection on which one hover request is outstanding. *)
Definition hover_asked : list Client.event :=
  [Client.Ws_open; Client.Call_getHover "file:///main.sysml" 0 8].

(** A client that has called [initialize()] and waits for the answer. *)
Definition initialize_pending : Client.client := fst (Client.initialize open_client).

(** What a user does on a tour of the tabs. *)
Definition tour : list Ui.action :=
  [Ui.Publish "file:///main.sysml" [unresolved_import];
   Ui.JumpTo 2 12 "file:///main.sysml";
   Ui.SwitchTo "library";
   Ui.Close "library";
   Ui.Close "main"].

End Samples.

(** * Properties *)

(** ** JavaScript string primitives *)

Section JsFacts.

Import Js.

Lemma startsWith_app s p t : startsWith s p = true -> startsWith (s ++ t) p = true.
Proof.
  revert s; induction p as [|x p IH]; intros [|y s]; simpl; try done.
  intros [-> H]%andb_true_iff. rewrite (IH _ H). by rewrite andb_true_r.
Qed.

Lemma startsWith_length s p : startsWith s p = true -> (length p <= length s)%nat.
Proof.
  revert s; induction p as [|x p IH]; intros [|y s]; simpl; try done; try lia.
  intros [_ H]%andb_true_iff. apply IH in H. lia.
Qed.

Lemma startsWith_app_inv s p t :
  startsWith (s ++ t) p = true -> (length p <= length s)%nat -> startsWith s p = true.
Proof.
  revert s; induction p as [|x p IH]; intros [|y s]; simpl; try done; try lia.
  intros [-> H]%andb_true_iff Hlen. rewrite (IH s H); [done | lia].
Qed.

Lemma startsWith_spec s p : startsWith s p = true <-> exists t, s = p ++ t.
Proof.
  revert s; induction p as [|x p IH]; intros s; simpl.
  - split; eauto.
  - destruct s as [|y s]; [split; [done | intros [t Ht]; done] |].
    rewrite andb_true_iff, IH, Z.eqb_eq. split.
    + intros [-> [t ->]]. eauto.
    + intros [t Ht]. injection Ht as -> ->. eauto.
Qed.

Lemma search_Some s p k :
  search s p = Some k -> startsWith (drop k s) p = true /\ (k + length p <= length s)%nat.
Proof.
  revert k; induction s as [|y s IH]; intros k; simpl.
  - destruct (startsWith [] p) eqn:E; [|done].
    intros [= <-]. split; [done|]. apply startsWith_length in E. simpl in *. lia.
  - destruct (startsWith (y :: s) p) eqn:E.
    + intros [= <-]. split; [done|]. apply startsWith_length in E. simpl in *. lia.
    + destruct (search s p) as [k'|]; [|done]. intros [= <-].
      destruct (IH k' eq_refl) as [? ?]. simpl. split; [done | lia].
Qed.

Lemma search_app s p t k : search s p = Some k -> search (s ++ t) p = Some k.
Proof.
  revert k; induction s as [|y s IH]; intros k; simpl.
  - destruct (startsWith [] p) eqn:E; [|done]. intros [= <-].
    apply (startsWith_app _ _ t) in E. simpl in E.
    destruct t; simpl; by rewrite E.
  - destruct (startsWith (y :: s) p) eqn:E.
    + intros [= <-]. apply (startsWith_app _ _ t) in E. simpl in E. by rewrite E.
    + destruct (search s p) as [k'|] eqn:Es; [|done]. intros [= <-].
      rewrite (IH k' eq_refl).
      destruct (startsWith (y :: s ++ t) p) eqn:E'; [|done].
      exfalso. apply search_Some in Es as [_ Hlen].
      apply (startsWith_app_inv (y :: s)) in E'; [congruence | simpl; lia].
Qed.

Lemma indexOf_found s p h :
  indexOf s p = h -> h <> -1 ->
  search s p = Some (Z.to_nat h) /\ 0 <= h /\ h + Z.of_nat (length p) <= Z.of_nat (length s).
Proof.
  unfold indexOf. destruct (search s p) as [k|] eqn:E; [|congruence].
  intros <- _. rewrite Nat2Z.id. apply search_Some in E as [_ E]. repeat split; lia.
Qed.

Lemma indexOf_app s p t : indexOf s p <> -1 -> indexOf (s ++ t) p = indexOf s p.
Proof.
  unfold indexOf. destruct (search s p) as [k|] eqn:E; [|done].
  intros _. by rewrite (search_app _ _ t _ E).
Qed.

(** No occurrence can start inside a prefix that lacks the needle's first
    code unit. *)
Lemma search_after_prefix pre x p rest :
  Forall (fun c => c <> x) pre ->
  search (pre ++ (x :: p) ++ rest) (x :: p) = Some (length pre).
Proof.
  induction 1 as [|c pre Hc _ IH].
  - simpl. rewrite Z.eqb_refl.
    assert (startsWith (p ++ rest) p = true) as -> by (apply startsWith_spec; eauto).
    done.
  - change ((c :: pre) ++ (x :: p) ++ rest) with (c :: (pre ++ (x :: p) ++ rest)).
    cbn [search]. rewrite IH.
    cbn [startsWith]. destruct (Z.eqb_spec x c) as [->|_]; [done|]. done.
Qed.

Lemma substring_take_drop s a b :
  0 <= a <= b -> b <= Z.of_nat (length s) ->
  substring s a b = take (Z.to_nat (b - a)) (drop (Z.to_nat a) s).
Proof.
  intros Ha Hb. unfold substring, clamp. cbv zeta.
  f_equal; [|f_equal]; lia.
Qed.

Lemma substring_from_drop s a : 0 <= a -> substring_from s a = drop (Z.to_nat a) s.
Proof.
  intros Ha. unfold substring_from, substring, clamp. cbv zeta.
  destruct (decide (a <= Z.of_nat (length s))) as [Hle|Hgt].
  - replace (Z.to_nat (Z.min (Z.min (Z.max a 0) _) _)) with (Z.to_nat a) by lia.
    apply take_ge. rewrite length_drop. lia.
  - rewrite (drop_ge s (Z.to_nat a)) by lia.
    replace (Z.to_nat (_ - _)) with O by lia. done.
Qed.

Lemma substring_app s t a b :
  0 <= a <= b -> b <= Z.of_nat (length s) -> substring (s ++ t) a b = substring s a b.
Proof.
  intros Ha Hb.
  rewrite !substring_take_drop by (rewrite ?length_app; lia).
  rewrite drop_app_le by lia. apply take_app_le. rewrite length_drop. lia.
Qed.

Lemma substring_from_app s t a :
  0 <= a <= Z.of_nat (length s) -> substring_from (s ++ t) a = substring_from s a ++ t.
Proof.
  intros Ha. rewrite !substring_from_drop by lia. apply drop_app_le. lia.
Qed.

Lemma take_digits_digits s : Forall (fun c => is_digit c = true) (take_digits s).
Proof.
  induction s as [|c s IH]; simpl; [constructor|].
  destruct (is_digit c) eqn:E; by constructor.
Qed.

Lemma take_digits_all ds rest :
  Forall (fun c => is_digit c = true) ds ->
  match rest with [] => True | c :: _ => is_digit c = false end ->
  take_digits (ds ++ rest) = ds.
Proof.
  induction 1 as [|d ds Hd _ IH]; intros Hrest; simpl.
  - destruct rest as [|c rest]; simpl; [done | by rewrite Hrest].
  - rewrite Hd. f_equal. by apply IH.
Qed.

Lemma match_Content_Length_digits s ds :
  match_Content_Length s = Some ds -> Forall (fun c => is_digit c = true) ds.
Proof.
  induction s as [|c s IH]; simpl.
  - done.
  - destruct (match_Content_Length_here (c :: s)) as [ds'|] eqn:E; [|done].
    intros [= <-]. unfold match_Content_Length_here in E.
    destruct (strip_prefix _ _) as [rest|]; [|done].
    pose proof (take_digits_digits rest) as H.
    destruct (take_digits rest); [done|]. by injection E as <-.
Qed.

Lemma parseInt_snoc ds c : parseInt (ds ++ [c]) = parseInt ds * 10 + (c - 48).
Proof. unfold parseInt. by rewrite fold_left_app. Qed.

Lemma parseInt_nonneg ds : Forall (fun c => is_digit c = true) ds -> 0 <= parseInt ds.
Proof.
  induction ds as [|c ds IH] using rev_ind; [done|].
  intros [H Hc%Forall_inv]%Forall_app. rewrite parseInt_snoc.
  unfold is_digit in Hc. specialize (IH H). lia.
Qed.

(** The digits written are read back: [parseInt(`${n}`) = n]. *)
Lemma digits_fuel_spec fuel n acc :
  (0 < fuel)%nat -> 0 <= n < 10 ^ Z.of_nat fuel ->
  exists ds, digits_fuel fuel n acc = ds ++ acc /\ ds <> [] /\
             Forall (fun c => is_digit c = true) ds /\ parseInt ds = n.
Proof.
  revert n acc. induction fuel as [|fuel IH]; intros n acc Hfuel Hn.
  - lia.
  - cbn [digits_fuel]. destruct (n <? 10) eqn:E.
    + exists [48 + n mod 10]. repeat split; [done | |].
      * constructor; [|constructor]. unfold is_digit. rewrite Z.mod_small; lia.
      * unfold parseInt. simpl. rewrite Z.mod_small; lia.
    + rewrite Nat2Z.inj_succ, Z.pow_succ_r in Hn by lia.
      destruct (IH (n / 10) ((48 + n mod 10) :: acc)) as (ds & -> & _ & Hds & Hp).
      { destruct fuel; [simpl in Hn; lia | lia]. }
      { split; [apply Z.div_pos; lia|]. apply Z.div_lt_upper_bound; lia. }
      exists (ds ++ [48 + n mod 10]). repeat split.
      * by rewrite <- app_assoc.
      * by destruct ds.
      * apply Forall_app. split; [done|]. constructor; [|constructor].
        unfold is_digit. pose proof (Z.mod_pos_bound n 10). lia.
      * rewrite parseInt_snoc, Hp. pose proof (Z.div_mod n 10). lia.
Qed.

Lemma Number_toString_spec n :
  0 <= n ->
  Number_toString n <> [] /\
  Forall (fun c => is_digit c = true) (Number_toString n) /\
  parseInt (Number_toString n) = n.
Proof.
  intros Hn. unfold Number_toString.
  destruct (digits_fuel_spec (S (Z.to_nat (Z.log2 n))) n []) as (ds & -> & ? & ? & ?).
  - lia.
  - split; [done|]. rewrite Nat2Z.inj_succ, Z2Nat.id by apply Z.log2_nonneg.
    destruct (decide (n = 0)) as [->|Hne]; [done|].
    apply Z.lt_le_trans with (2 ^ Z.succ (Z.log2 n)).
    + apply Z.log2_spec. lia.
    + apply Z.pow_le_mono_l. pose proof (Z.log2_nonneg n). lia.
  - by rewrite app_nil_r.
Qed.

End JsFacts.

(** ** UTF-8 on ASCII text *)

Section Utf8Facts.

Import Utf8.

Lemma ascii_check s :
  forallb (fun u => (0 <=? u) && (u <? 128)) s = true -> is_ascii s.
Proof.
  induction s as [|u s IH]; simpl; [constructor|].
  intros [Hu Hs]%andb_true_iff. constructor; [lia | by apply IH].
Qed.

Lemma ascii_app s t : is_ascii s -> is_ascii t -> is_ascii (s ++ t).
Proof. intros. by apply Forall_app. Qed.

Lemma ascii_concat ss : Forall is_ascii ss -> is_ascii (concat ss).
Proof. induction 1; simpl; [constructor | by apply ascii_app]. Qed.

Lemma encode_ascii s : is_ascii s -> encode s = s.
Proof.
  induction 1 as [|u s Hu _ IH]; [done|]. cbn [encode].
  unfold is_high_surrogate, is_low_surrogate, encode_code_point.
  replace (0xD800 <=? u) with false by lia. replace (0xDC00 <=? u) with false by lia.
  replace (u <? 0x80) with true by lia. simpl. by rewrite IH.
Qed.

Lemma toString_ascii bs : is_ascii bs -> toString bs = bs.
Proof.
  unfold toString. induction 1 as [|b bs Hb _ IH]; [done|]. cbn [decode_from].
  unfold lead. replace (b <=? 0x7F) with true by lia. simpl. by rewrite IH.
Qed.

Lemma byteLength_ascii s : is_ascii s -> byteLength s = Z.of_nat (length s).
Proof. intros H. unfold byteLength. by rewrite encode_ascii. Qed.

Lemma ascii_Content_Length : is_ascii (Js.lit "Content-Length: ").
Proof. unfold is_ascii. simpl. repeat (constructor; [lia|]). constructor. Qed.

Lemma ascii_CRLFCRLF : is_ascii Proxy.CRLFCRLF.
Proof. unfold is_ascii, Proxy.CRLFCRLF. repeat (constructor; [lia|]). constructor. Qed.

Lemma ascii_digits ds : Forall (fun c => Js.is_digit c = true) ds -> is_ascii ds.
Proof. intros H. eapply Forall_impl; [exact H|]. unfold Js.is_digit. intros c Hc. simpl in Hc. lia. Qed.

End Utf8Facts.

(** ** The decode loop *)

Section DecoderFacts.

Import Js Utf8 Proxy.

Variable JSON_parse : list Z -> bool.

Local Abbreviation loop_body := (Proxy.loop_body JSON_parse).
Local Abbreviation loop := (Proxy.loop JSON_parse).
Local Abbreviation drain := (Proxy.drain JSON_parse).
Local Abbreviation stdout_on_data := (Proxy.stdout_on_data JSON_parse).
Local Abbreviation stdout_on_chunks := (Proxy.stdout_on_chunks JSON_parse).

(** What a round computes before it decides: the header end, and, when the
    header names a length, where the body starts and ends. *)
Lemma loop_body_cases rs b :
  (indexOf b CRLFCRLF = -1 /\ loop_body rs b = Break) \/
  (exists h, indexOf b CRLFCRLF = h /\ 0 <= h /\ h + 4 <= Z.of_nat (length b) /\
     ((match_Content_Length (substring b 0 h) = None /\
       loop_body rs b = Continue (substring_from b (h + 4)) []) \/
      (exists ds, match_Content_Length (substring b 0 h) = Some ds /\
         0 <= parseInt ds /\
         ((Z.of_nat (length b) < h + 4 + parseInt ds /\ loop_body rs b = Break) \/
          (h + 4 + parseInt ds <= Z.of_nat (length b) /\
           loop_body rs b =
             Continue (substring_from b (h + 4 + parseInt ds))
               (if JSON_parse (substring b (h + 4) (h + 4 + parseInt ds))
                then if rs =? OPEN then [substring b (h + 4) (h + 4 + parseInt ds)] else []
                else [])))))).
Proof.
  unfold Proxy.loop_body. cbv zeta.
  destruct (indexOf b CRLFCRLF =? -1) eqn:E; [left; split; [lia | done]|].
  right. exists (indexOf b CRLFCRLF).
  destruct (indexOf_found b CRLFCRLF _ eq_refl) as (_ & H0 & Hlen); [lia|].
  simpl in Hlen. repeat split; try lia.
  destruct (match_Content_Length _) as [ds|] eqn:Em; [right | by left].
  exists ds. split; [done|].
  pose proof (parseInt_nonneg ds (match_Content_Length_digits _ _ Em)) as Hp.
  split; [done|].
  destruct (_ <? _) eqn:El; [left; split; [lia | done] | right].
  split; [lia|].
  destruct (JSON_parse _); [|done]. by destruct (rs =? OPEN).
Qed.

Lemma loop_body_shrinks rs b b' sent :
  loop_body rs b = Continue b' sent -> (length b' + 4 <= length b)%nat.
Proof.
  intros H.
  destruct (loop_body_cases rs b) as [[_ E]|(h & _ & H0 & Hlen & [[_ E]|(ds & _ & Hp & [[_ E]|[Hle E]])])];
    rewrite E in H; try done; injection H as <- _;
    rewrite substring_from_drop, length_drop by lia; lia.
Qed.

Lemma loop_enough fuel1 fuel2 rs b :
  (length b < fuel1)%nat -> (length b < fuel2)%nat -> loop fuel1 rs b = loop fuel2 rs b.
Proof.
  revert fuel2 b; induction fuel1 as [|fuel1 IH]; intros fuel2 b H1 H2; [lia|].
  destruct fuel2 as [|fuel2]; [lia|]. simpl.
  destruct (loop_body rs b) as [|b' sent] eqn:E; [done|].
  apply loop_body_shrinks in E. rewrite (IH fuel2 b'); [done | lia | lia].
Qed.

(** [drain] is the loop: it stops where a round breaks and goes on with the
    rest where a round continues. *)
Lemma drain_unfold rs b :
  drain rs b =
  match loop_body rs b with
  | Break => ([], b)
  | Continue b' sent => let (more, rest) := drain rs b' in (sent ++ more, rest)
  end.
Proof.
  unfold Proxy.drain at 1. cbn [Proxy.loop].
  destruct (loop_body rs b) as [|b' sent] eqn:E; [done|].
  apply loop_body_shrinks in E. unfold Proxy.drain.
  rewrite (loop_enough (length b) (S (length b')) rs b'); [done | lia | lia].
Qed.

(** A round that continues does the same when more input follows. *)
Lemma loop_body_app rs b t b' sent :
  loop_body rs b = Continue b' sent -> loop_body rs (b ++ t) = Continue (b' ++ t) sent.
Proof.
  intros H.
  destruct (loop_body_cases rs b) as [[_ E]|(h & Eh & H0 & Hlen & Hcases)];
    [rewrite E in H; done|].
  assert (indexOf (b ++ t) CRLFCRLF = h) as Eh'.
  { rewrite indexOf_app; [done|]. lia. }
  assert (substring (b ++ t) 0 h = substring b 0 h) as Es by (apply substring_app; lia).
  destruct (loop_body_cases rs (b ++ t)) as [[E' _]|(h' & Eh2 & _ & _ & Hcases')]; [lia|].
  assert (h' = h) as -> by congruence. rewrite Es in Hcases'.
  destruct Hcases as [[Em E]|(ds & Em & Hp & [[_ E]|[Hle E]])]; rewrite E in H; try done;
    injection H as <- <-.
  - destruct Hcases' as [[_ ->]|(ds' & Em' & _)]; [|congruence].
    by rewrite substring_from_app by lia.
  - destruct Hcases' as [[Em' _]|(ds' & Em' & _ & Hc)]; [congruence|].
    assert (ds' = ds) as -> by congruence.
    destruct Hc as [[Hlt _]|[_ ->]]; [rewrite length_app in Hlt; lia|].
    rewrite substring_app by lia. by rewrite substring_from_app by lia.
Qed.

(** The decoder is a function of the text received, however the text was
    cut: draining, appending and draining again is draining once. *)
Lemma drain_app rs b t :
  drain rs (b ++ t) =
  let (sent, rest) := drain rs b in
  let (more, rest') := drain rs (rest ++ t) in
  (sent ++ more, rest').
Proof.
  remember (length b) as n eqn:Hn. revert b Hn.
  induction n as [n IH] using lt_wf_ind. intros b ->.
  rewrite (drain_unfold rs b).
  destruct (loop_body rs b) as [|b' sent] eqn:E.
  - by destruct (drain rs (b ++ t)).
  - rewrite (drain_unfold rs (b ++ t)), (loop_body_app _ _ t _ _ E).
    pose proof (loop_body_shrinks _ _ _ _ E) as Hs.
    rewrite (IH (length b')); [|lia|done].
    destruct (drain rs b') as [s1 r1]. destruct (drain rs (r1 ++ t)) as [s2 r2].
    by rewrite app_assoc.
Qed.

(** A header block [Content-Length: <digits>] is matched, with the digits
    as group 1. *)
Lemma match_Content_Length_header ds :
  ds <> [] -> Forall (fun c => is_digit c = true) ds ->
  match_Content_Length (lit "Content-Length: " ++ ds) = Some ds.
Proof.
  intros Hne Hds.
  assert (match_Content_Length_here (lit "Content-Length: " ++ ds) = Some ds) as E.
  { unfold match_Content_Length_here. simpl. rewrite ?Z.eqb_refl.
    rewrite <- (app_nil_r ds) at 1. rewrite take_digits_all by done.
    by destruct ds. }
  simpl in *. by rewrite E.
Qed.

(** One round on a buffer that starts with the header for [n]: the loop
    waits unless [n] code units follow the blank line, and then takes
    exactly [n] code units as the body. *)
Lemma loop_body_header rs n text :
  0 <= n ->
  loop_body rs (frame_text n text) =
  if Z.of_nat (length text) <? n then Break
  else Continue (drop (Z.to_nat n) text)
         (if JSON_parse (take (Z.to_nat n) text)
          then if rs =? OPEN then [take (Z.to_nat n) text] else []
          else []).
Proof.
  intros Hn.
  destruct (Number_toString_spec n Hn) as (Hne & Hds & Hp).
  unfold frame_text.
  set (ds := Number_toString n) in *.
  set (hd := lit "Content-Length: " ++ ds).
  rewrite (app_assoc (lit "Content-Length: ") ds). fold hd.
  assert (search (hd ++ CRLFCRLF ++ text) CRLFCRLF = Some (length hd)) as Es.
  { apply search_after_prefix. apply Forall_app. split.
    - simpl. repeat (constructor; [lia|]). constructor.
    - eapply Forall_impl; [exact Hds|]. unfold is_digit. intros c Hc. simpl in Hc. lia. }
  assert (indexOf (hd ++ CRLFCRLF ++ text) CRLFCRLF = Z.of_nat (length hd)) as Eh.
  { unfold indexOf. by rewrite Es. }
  assert (forall k, drop (length hd + 4 + k) (hd ++ CRLFCRLF ++ text) = drop k text) as Hdrop.
  { intros k. rewrite <- Nat.add_assoc, <- drop_drop, drop_app_length.
    by rewrite <- drop_drop. }
  assert (length (hd ++ CRLFCRLF ++ text) = (length hd + 4 + length text)%nat) as Hlen.
  { rewrite !length_app. simpl. lia. }
  destruct (loop_body_cases rs (hd ++ CRLFCRLF ++ text))
    as [[E _]|(h & Eh' & _ & _ & Hcases)]; [lia|].
  assert (h = Z.of_nat (length hd)) as -> by congruence.
  assert (substring (hd ++ CRLFCRLF ++ text) 0 (Z.of_nat (length hd)) = hd) as Ehd.
  { rewrite substring_take_drop by lia.
    rewrite Z.sub_0_r, Nat2Z.id. exact (take_app_length hd _). }
  rewrite Ehd in Hcases.
  pose proof (match_Content_Length_header ds Hne Hds) as Em2.
  change (lit "Content-Length: " ++ ds) with hd in Em2.
  destruct Hcases as [[? _]|(ds' & Em & _ & Hc)]; [congruence|].
  assert (ds' = ds) as -> by congruence.
  rewrite Hp, Hlen in Hc.
  destruct Hc as [[Hlt ->]|[Hle ->]].
  { by replace (Z.of_nat (length text) <? n) with true by lia. }
  replace (Z.of_nat (length text) <? n) with false by lia.
  rewrite substring_from_drop by lia.
  rewrite substring_take_drop by lia.
  replace (Z.to_nat (Z.of_nat (length hd) + 4 + n))
    with (length hd + 4 + Z.to_nat n)%nat by lia.
  replace (Z.to_nat (Z.of_nat (length hd) + 4)) with (length hd + 4 + 0)%nat by lia.
  rewrite !Hdrop, drop_0.
  by replace (Z.to_nat (Z.of_nat (length hd) + 4 + n - (Z.of_nat (length hd) + 4)))
    with (Z.to_nat n) by lia.
Qed.

(** In particular, when the declared length is the length of the body in
    code units, the body is taken out whole and the rest is left. *)
Lemma loop_body_frame rs body rest :
  loop_body rs (frame_text (Z.of_nat (length body)) body ++ rest) =
  Continue rest
    (if JSON_parse body then if rs =? OPEN then [body] else [] else []).
Proof.
  assert (frame_text (Z.of_nat (length body)) body ++ rest
          = frame_text (Z.of_nat (length body)) (body ++ rest)) as ->.
  { unfold frame_text. by rewrite <- !app_assoc. }
  rewrite loop_body_header by lia. rewrite length_app.
  rewrite (proj2 (Z.ltb_ge _ _)) by lia.
  by rewrite Nat2Z.id, take_app_length, drop_app_length.
Qed.

(** Draining a buffer that starts with such a frame. *)
Lemma drain_frame rs body rest :
  drain rs (frame_text (Z.of_nat (length body)) body ++ rest) =
  let (more, rest') := drain rs rest in
  ((if JSON_parse body then if rs =? OPEN then [body] else [] else []) ++ more, rest').
Proof. by rewrite drain_unfold, loop_body_frame. Qed.

Lemma drain_no_terminator rs b : indexOf b CRLFCRLF = -1 -> drain rs b = ([], b).
Proof.
  intros H. rewrite drain_unfold.
  destruct (loop_body_cases rs b) as [[_ ->]|(h & ? & ? & _)]; [done | lia].
Qed.

(** The frame the encoder writes for an ASCII message is such a frame. *)
Lemma lspMessage_ascii m :
  is_ascii m -> lspMessage m = frame_text (Z.of_nat (length m)) m /\ is_ascii (lspMessage m).
Proof.
  intros Hm. unfold lspMessage, frame_text. cbv zeta. rewrite byteLength_ascii by done.
  split; [done|].
  destruct (Number_toString_spec (Z.of_nat (length m))) as (_ & Hds & _); [lia|].
  repeat apply ascii_app; auto using ascii_Content_Length, ascii_CRLFCRLF, ascii_digits.
Qed.

(** Chunks of ASCII bytes: however the stream is cut, the decoder ends in
    the state it reaches on the whole stream. *)
Lemma stdout_on_data_app s d1 d2 :
  Utf8.toString (d1 ++ d2) = Utf8.toString d1 ++ Utf8.toString d2 ->
  stdout_on_data (stdout_on_data s d1) d2 = stdout_on_data s (d1 ++ d2).
Proof.
  intros Hd. unfold Proxy.stdout_on_data. rewrite Hd.
  rewrite (app_assoc (buffer s) (Utf8.toString d1) (Utf8.toString d2)).
  rewrite (drain_app (readyState s) (buffer s ++ Utf8.toString d1) (Utf8.toString d2)).
  destruct (drain (readyState s) (buffer s ++ Utf8.toString d1)) as [s1 r1]. simpl.
  destruct (drain (readyState s) (r1 ++ Utf8.toString d2)) as [s2 r2].
  by rewrite app_assoc.
Qed.

Lemma stdout_on_chunks_ascii s d ds :
  is_ascii d -> Forall is_ascii ds ->
  stdout_on_chunks s (d :: ds) = stdout_on_data s (d ++ concat ds).
Proof.
  intros Hd Hds. revert s d Hd.
  induction Hds as [|d' ds Hd' Hds IH]; intros s d Hd.
  - by rewrite app_nil_r.
  - change (stdout_on_chunks s (d :: d' :: ds))
      with (stdout_on_chunks (stdout_on_data s d) (d' :: ds)).
    rewrite IH by done. apply stdout_on_data_app.
    assert (is_ascii (d' ++ concat ds)) as Hc by auto using ascii_app, ascii_concat.
    rewrite !toString_ascii; auto using ascii_app.
Qed.

(** A message is sent only when the whole body its header declares is in
    the buffer, and it is that body. *)
Lemma no_partial_emission rs b b' m sent :
  loop_body rs b = Continue b' (m :: sent) ->
  exists h ds,
    indexOf b CRLFCRLF = h /\ match_Content_Length (substring b 0 h) = Some ds /\
    h + 4 + parseInt ds <= Z.of_nat (length b) /\
    m = substring b (h + 4) (h + 4 + parseInt ds) /\
    Z.of_nat (length m) = parseInt ds /\ sent = [].
Proof.
  intros H.
  destruct (loop_body_cases rs b) as [[_ E]|(h & Eh & H0 & Hlen & [[_ E]|(ds & Em & Hp & [[_ E]|[Hle E]])])];
    rewrite E in H; try done.
  injection H as _ H. exists h, ds.
  destruct (JSON_parse _); [|done]. destruct (rs =? OPEN); [|done].
  injection H as <- <-. repeat split; try done.
  rewrite substring_take_drop by lia. rewrite length_take, length_drop. lia.
Qed.




(** The frame of an ASCII message, fed whole to a fresh decoder, comes out
    as that message. *)
Lemma frame_roundtrip_ascii m :
  is_ascii m ->
  stdout_on_data (connection OPEN) (Utf8.encode (lspMessage m)) =
  Session [] OPEN [] (if JSON_parse m then [m] else []).
Proof.
  intros Hm. destruct (lspMessage_ascii m Hm) as [E Ha].
  unfold Proxy.stdout_on_data, connection. cbn [buffer readyState stdin ws_sent].
  rewrite encode_ascii, toString_ascii by done.
  rewrite app_nil_l, E, <- (app_nil_r (frame_text _ m)), drain_frame.
  rewrite (drain_no_terminator OPEN []) by done.
  rewrite app_nil_r. by destruct (JSON_parse m).
Qed.

(** The frame of a message that is longer in bytes than in code units,
    fed whole to a fresh decoder, is not given back: the decoder waits for
    code units that are not coming.  (The premise on [toString] says that
    the message is well-formed UTF-16, so that its bytes decode back to
    it.) *)
Lemma frame_longer_in_bytes_waits rs m :
  Utf8.toString (Utf8.encode (lspMessage m)) = lspMessage m ->
  Z.of_nat (length m) < Utf8.byteLength m ->
  stdout_on_data (connection rs) (Utf8.encode (lspMessage m)) =
  Session (lspMessage m) rs [] [].
Proof.
  intros Hrt Hlen. unfold Proxy.stdout_on_data, connection.
  cbn [buffer readyState stdin ws_sent]. rewrite Hrt, app_nil_l, drain_unfold.
  unfold lspMessage at 1. cbv zeta. fold (frame_text (Utf8.byteLength m) m).
  rewrite loop_body_header by (unfold Utf8.byteLength; lia).
  by rewrite (proj2 (Z.ltb_lt _ _)) by lia.
Qed.

End DecoderFacts.

(** ** The frame codec: the claims *)

Section FrameCodec.

Import Js Proxy Samples.

Variable JSON_parse : list Z -> bool.

Local Abbreviation drain := (Proxy.drain JSON_parse).

(** C1 (the code departs from it).  The encoder declares the length of the
    body in bytes, the decoder counts code units of the decoded text.  For
    the message [{"a":"\u00e9"}], written with the letter itself, the frame
    declares 10 while the decoded body has 9 code units: fed whole to a
    fresh decoder on an open socket, the frame is not given back, nothing is
    sent and the decoder keeps waiting for a tenth code unit. *)
Theorem C1_multibyte_frame_is_not_decoded :
  stdin (ws_on_message (connection OPEN) (Utf8.encode e_acute_message)) = e_acute_frame /\
  Json.parses e_acute_message = true /\
  Utf8.byteLength e_acute_message = 10 /\
  Z.of_nat (length e_acute_message) = 9 /\
  Utf8.toString e_acute_frame = lspMessage e_acute_message /\
  stdout_on_data JSON_parse (connection OPEN) e_acute_frame =
    Session (lspMessage e_acute_message) OPEN [] [].
Proof. do 5 (split; [vm_compute; reflexivity|]). vm_compute. reflexivity. Qed.

(** C2 (the code departs from it).  Each chunk is decoded to text on its
    own.  Cut between the two bytes of U+00E9, the frame of
    [{"a":"\u00e9"}] makes the decoder send a message with two U+FFFD in
    place of the letter, while the same bytes in one chunk make it send
    nothing. *)
Theorem C2_chunk_cut_inside_character :
  take 29 e_acute_frame ++ drop 29 e_acute_frame = e_acute_frame /\
  ws_sent (stdout_on_data Json.parses (connection OPEN) e_acute_frame) = [] /\
  ws_sent (stdout_on_chunks Json.parses (connection OPEN)
             [take 29 e_acute_frame; drop 29 e_acute_frame]) = [replaced_message].
Proof. do 2 (split; [vm_compute; reflexivity|]). vm_compute. reflexivity. Qed.


(** The scenario of the frame [Content-Length: 13] with body
    [{"a":1,"b":2}], cut in two at any place: one message is sent and the
    buffer is empty afterwards. *)
Lemma ab_frame_in_two_chunks k :
  let frame := Utf8.encode (lspMessage ab_message) in
  stdout_on_chunks Json.parses (connection OPEN) [take k frame; drop k frame]
  = Session [] OPEN [] [ab_message].
Proof.
  assert (Utf8.is_ascii ab_message) as Ha by (by apply ascii_check).
  destruct (lspMessage_ascii ab_message Ha) as [_ Hf].
  cbv zeta. rewrite (encode_ascii _ Hf).
  rewrite stdout_on_chunks_ascii.
  - simpl concat. rewrite app_nil_r, take_drop.
    rewrite <- (encode_ascii _ Hf) at 1. by rewrite frame_roundtrip_ascii.
  - by apply Forall_take.
  - constructor; [by apply Forall_drop | constructor].
Qed.

End FrameCodec.



(** ** The client: what every state satisfies *)

Section ClientInvariant.

Import Client.

Lemma settlements_snoc i log n s :
  settlements i (log ++ [(n, s)]) = settlements i log ++ (if decide (n = i) then [s] else []).
Proof.
  unfold settlements. rewrite filter_app, fmap_app. f_equal.
  rewrite filter_cons. simpl. by destruct (decide (n = i)).
Qed.

Lemma request_ids_app l1 l2 : request_ids (l1 ++ l2) = request_ids l1 ++ request_ids l2.
Proof. induction l1 as [|[] l1 IH]; simpl; by rewrite ?IH. Qed.

(** An operation that leaves the counter, the two tables, the ids sent and
    the settlements alone keeps the invariant. *)
Lemma Inv_same c c' :
  messageId c' = messageId c -> pendingRequests c' = pendingRequests c ->
  timers c' = timers c -> request_ids (sent c') = request_ids (sent c) ->
  settled c' = settled c -> Inv c -> Inv c'.
Proof.
  intros E1 E2 E3 E4 E5 [H1 H2 H3 H4 H5 H6].
  split; rewrite ?E1, ?E2, ?E3, ?E4, ?E5; done.
Qed.

(** A pending request is settled: its entry and its timeout go. *)
Lemma Inv_settled c c' n s :
  is_Some (pendingRequests c !! n) ->
  messageId c' = messageId c -> pendingRequests c' = delete n (pendingRequests c) ->
  timers c' = delete n (timers c) -> request_ids (sent c') = request_ids (sent c) ->
  settled c' = settled c ++ [(n, s)] -> Inv c -> Inv c'.
Proof.
  intros [w Hw] E1 E2 E3 E4 E5 [H1 H2 H3 H4 H5 H6].
  destruct (H3 n w Hw) as [Hn [m Hm]]. destruct (H4 n m Hm) as [_ Hnone].
  split; rewrite ?E1, ?E2, ?E3, ?E4, ?E5; try done.
  - intros i w'. rewrite lookup_delete. case_decide; [done|].
    intros Hi. destruct (H3 i w' Hi) as [? ?]. by rewrite lookup_delete_ne.
  - intros i m'. rewrite lookup_delete. case_decide; [done|].
    intros Hi. destruct (H4 i m' Hi) as [? ?]. split; [done|].
    rewrite settlements_snoc. case_decide; [done|]. by rewrite app_nil_r.
  - intros i. rewrite settlements_snoc. case_decide as Hd.
    + subst. lia.
    + rewrite app_nil_r. apply H5.
  - intros i. rewrite settlements_snoc. case_decide as Hd.
    + subst. by rewrite Hnone.
    + rewrite app_nil_r. apply H6.
Qed.

(** A timeout goes whose request is no longer pending. *)
Lemma Inv_timer_gone c c' n :
  pendingRequests c !! n = None ->
  messageId c' = messageId c -> pendingRequests c' = pendingRequests c ->
  timers c' = delete n (timers c) -> request_ids (sent c') = request_ids (sent c) ->
  settled c' = settled c -> Inv c -> Inv c'.
Proof.
  intros Hn E1 E2 E3 E4 E5 [H1 H2 H3 H4 H5 H6].
  split; rewrite ?E1, ?E2, ?E3, ?E4, ?E5; try done.
  - intros i w Hi. destruct (H3 i w Hi) as [? ?]. split; [done|].
    rewrite lookup_delete_ne; [done | congruence].
  - intros i m. rewrite lookup_delete. case_decide; [done|]. apply H4.
Qed.

Lemma request_ids_sendNotification c method params :
  request_ids (sent (sendNotification c method params)) = request_ids (sent c).
Proof.
  unfold sendNotification. destruct (negb (ws_open c)); [done|].
  simpl. rewrite request_ids_app. simpl. by rewrite app_nil_r.
Qed.

Lemma Inv_sendNotification c method params : Inv c -> Inv (sendNotification c method params).
Proof.
  apply Inv_same; try (unfold sendNotification; by destruct (negb (ws_open c))).
  apply request_ids_sendNotification.
Qed.

Lemma initialize_resume_fields c :
  messageId (initialize_resume c) = messageId c /\
  pendingRequests (initialize_resume c) = pendingRequests c /\
  timers (initialize_resume c) = timers c /\
  request_ids (sent (initialize_resume c)) = request_ids (sent c) /\
  settled (initialize_resume c) = settled c.
Proof.
  unfold initialize_resume. simpl. rewrite request_ids_sendNotification.
  unfold sendNotification. by destruct (negb (ws_open c)).
Qed.

Lemma Inv_sendRequest c method params w : Inv c -> Inv (fst (sendRequest c method params w)).
Proof.
  intros [H1 H2 H3 H4 H5 H6]. unfold sendRequest.
  destruct (negb (ws_open c)); [done|]. simpl.
  split; simpl.
  - lia.
  - rewrite request_ids_app, H2. simpl.
    rewrite (seqZ_app 1 (messageId c) 1) by lia. by rewrite Z.add_comm.
  - intros i w'. rewrite !lookup_insert. case_decide.
    + intros _. subst. split; [lia | eauto].
    + intros Hi. destruct (H3 i w' Hi) as [? ?]. split; [lia | done].
  - intros i m. rewrite lookup_insert. case_decide.
    + intros _. subst. split; [lia|].
      destruct (settlements (messageId c + 1) (settled c)) eqn:E; [done|].
      assert (1 <= messageId c + 1 <= messageId c); [|lia]. apply H5. by rewrite E.
    + intros Hi. destruct (H4 i m Hi) as [? ?]. split; [lia | done].
  - intros i Hi. specialize (H5 i Hi). lia.
  - done.
Qed.

Lemma Inv_on_timeout c n : Inv c -> Inv (on_timeout c n).
Proof.
  intros HI. unfold on_timeout. destruct (timers c !! n) as [m|] eqn:Et; [|done].
  simpl. destruct (pendingRequests c !! n) as [w|] eqn:Ep.
  - by eapply (Inv_settled c _ n); eauto.
  - by eapply (Inv_timer_gone c _ n); eauto.
Qed.

Lemma Inv_onmessage c message : Inv c -> Inv (onmessage c message).
Proof.
  intros HI. unfold onmessage, handleMessage, pending_entry.
  destruct (id message) as [[| | |n| | |]|]; simpl;
    try (destruct (decide _); [destruct (params message); try done;
           destruct (diagnosticsHandler c); by try (eapply Inv_same; [..|exact HI]) | done]).
  destruct (pendingRequests c !! n) as [w|] eqn:Ep; simpl.
  - destruct (error message) as [msg|].
    + by eapply (Inv_settled c _ n); eauto.
    + unfold entry_resolve. destruct w.
      * match goal with |- Inv (initialize_resume ?c1) =>
          destruct (initialize_resume_fields c1) as (E1 & E2 & E3 & E4 & E5) end.
        eapply (Inv_settled c _ n);
          [eauto | rewrite E1 | rewrite E2 | rewrite E3 | rewrite E4 | rewrite E5
           | exact HI]; done.
      * by eapply (Inv_settled c _ n); eauto.
  - destruct (decide _); [|done]. destruct (params message); try done;
      destruct (diagnosticsHandler c); by try (eapply Inv_same; [..|exact HI]).
Qed.

Lemma Inv_step c e : Inv c -> Inv (step c e).
Proof.
  intros HI. destruct e; simpl.
  - by eapply Inv_same; [..|exact HI].
  - by eapply Inv_same; [..|exact HI].
  - unfold initialize. destruct (isInitialized c); [done|]. by apply Inv_sendRequest.
  - by apply Inv_sendRequest.
  - by apply Inv_sendRequest.
  - by apply Inv_sendNotification.
  - by apply Inv_sendNotification.
  - destruct HI as [H1 H2 H3 H4 H5 H6]. unfold disconnect.
    split; destruct (ws c); simpl; try done.
  - destruct (ws c) as [[]|]; try done. unfold onopen, notify_status. simpl.
    destruct (connectionStatusHandler c); by eapply Inv_same; [..|exact HI].
  - unfold onerror, notify_status.
    destruct (connectionStatusHandler c); by eapply Inv_same; [..|exact HI].
  - destruct (ws_open c); [|done]. by apply Inv_onmessage.
  - unfold onclose, notify_status. simpl.
    destruct (connectionStatusHandler c); by eapply Inv_same; [..|exact HI].
  - by apply Inv_on_timeout.
Qed.

Lemma Inv_run c events : Inv c -> Inv (run c events).
Proof.
  revert c. induction events as [|e events IH]; intros c HI; [done|].
  apply IH. by apply Inv_step.
Qed.

Lemma Inv_new_client : Inv new_client.
Proof. split; simpl; try done; intros; simpl; try done; lia. Qed.

Lemma Inv_connect c : Inv c -> Inv (connect c).
Proof. by apply Inv_same. Qed.

Lemma Inv_session before after : Inv (session before after).
Proof. apply Inv_run, Inv_connect, Inv_run, Inv_new_client. Qed.

End ClientInvariant.

(** ** The client: how requests are settled *)

Section Correlation.

Import Client.

(** What a message does to the requests: it answers the pending request
    whose id it bears, or it leaves every request alone. *)
Lemma onmessage_cases c message :
  (exists n w,
     id message = Some (Num n) /\ pendingRequests c !! n = Some w /\
     pendingRequests (onmessage c message) = delete n (pendingRequests c) /\
     timers (onmessage c message) = delete n (timers c) /\
     settled (onmessage c message) = settled c ++ [(n, outcome message)] /\
     messageId (onmessage c message) = messageId c /\
     ws (onmessage c message) = ws c) \/
  (pending_entry c message = None /\
   pendingRequests (onmessage c message) = pendingRequests c /\
   timers (onmessage c message) = timers c /\
   settled (onmessage c message) = settled c /\
   messageId (onmessage c message) = messageId c /\
   ws (onmessage c message) = ws c /\
   sent (onmessage c message) = sent c /\
   isInitialized (onmessage c message) = isInitialized c).
Proof.
  unfold onmessage, handleMessage.
  destruct (pending_entry c message) as [[n w]|] eqn:Ep.
  - left. exists n, w. unfold pending_entry in Ep.
    destruct (id message) as [[| | |n'| | |]|]; try done.
    destruct (pendingRequests c !! n') as [w'|] eqn:Ew; [|done].
    injection Ep as -> ->. unfold outcome.
    destruct (error message) as [msg|]; [done|].
    unfold entry_resolve. destruct w; [|done].
    unfold initialize_resume, sendNotification. simpl.
    by destruct (negb (ws_open _)).
  - right. split; [done|].
    destruct (decide _); [|done]. destruct (params message); try done;
      by destruct (diagnosticsHandler c).
Qed.

(** What a timeout does: none was set; or it rejects the request still
    pending; or the request was no longer pending and nothing is settled. *)
Lemma on_timeout_cases c n :
  (timers c !! n = None /\ on_timeout c n = c) \/
  (exists method w,
     timers c !! n = Some method /\ pendingRequests c !! n = Some w /\
     pendingRequests (on_timeout c n) = delete n (pendingRequests c) /\
     timers (on_timeout c n) = delete n (timers c) /\
     settled (on_timeout c n) = settled c ++ [(n, Rejected (timeout_message method n))] /\
     messageId (on_timeout c n) = messageId c) \/
  (pendingRequests c !! n = None /\
   pendingRequests (on_timeout c n) = pendingRequests c /\
   timers (on_timeout c n) = delete n (timers c) /\
   settled (on_timeout c n) = settled c /\
   messageId (on_timeout c n) = messageId c).
Proof.
  unfold on_timeout. destruct (timers c !! n) as [method|] eqn:Et; [|by left].
  right. simpl. destruct (pendingRequests c !! n) as [w|] eqn:Ep.
  - left. by exists method, w.
  - by right.
Qed.

(** What a call of [sendRequest] does: nothing, or a new id. *)
Lemma sendRequest_cases c method params w :
  (ws_open c = false /\
   sendRequest c method params w = (c, Settled (Rejected "WebSocket not connected"))) \/
  (ws_open c = true /\
   snd (sendRequest c method params w) = Awaiting (messageId c + 1) /\
   messageId (fst (sendRequest c method params w)) = messageId c + 1 /\
   pendingRequests (fst (sendRequest c method params w))
     = <[messageId c + 1 := w]> (pendingRequests c) /\
   timers (fst (sendRequest c method params w))
     = <[messageId c + 1 := method]> (timers c) /\
   sent (fst (sendRequest c method params w))
     = sent c ++ [Request (messageId c + 1) method params] /\
   settled (fst (sendRequest c method params w)) = settled c /\
   ws (fst (sendRequest c method params w)) = ws c /\
   isInitialized (fst (sendRequest c method params w)) = isInitialized c).
Proof.
  unfold sendRequest. destruct (ws_open c); simpl; [right | left]; done.
Qed.

(** Once a request is answered, nothing that happens settles it again or
    makes it pending again. *)
Lemma step_answered c e i :
  answered c i ->
  answered (step c e) i /\ settlements i (settled (step c e)) = settlements i (settled c).
Proof.
  intros [Hp Hi]. unfold answered.
  assert (forall method params w,
            (pendingRequests (fst (sendRequest c method params w)) !! i = None /\
             i <= messageId (fst (sendRequest c method params w))) /\
            settlements i (settled (fst (sendRequest c method params w)))
              = settlements i (settled c)) as Hsend.
  { intros method params w.
    destruct (sendRequest_cases c method params w)
      as [[_ ->]|(_ & _ & -> & -> & _ & _ & -> & _)]; [done|].
    rewrite lookup_insert_ne by lia. split; [split; [done | lia] | done]. }
  assert (forall method params,
            (pendingRequests (sendNotification c method params) !! i = None /\
             i <= messageId (sendNotification c method params)) /\
            settlements i (settled (sendNotification c method params))
              = settlements i (settled c)) as Hnote.
  { intros. unfold sendNotification. by destruct (negb (ws_open c)). }
  destruct e as [ | | | ? ? ? | ? | ? ? ? ? | ? ? ? | | | | message | | n ];
    simpl; try done; try apply Hsend; try apply Hnote.
  - unfold initialize. destruct (isInitialized c); [done | apply Hsend].
  - unfold disconnect. destruct (ws c); simpl; by rewrite lookup_empty.
  - destruct (ws c) as [[]|]; try done. unfold onopen, notify_status. simpl.
    by destruct (connectionStatusHandler c).
  - unfold onerror, notify_status. by destruct (connectionStatusHandler c).
  - destruct (ws_open c); [|done].
    destruct (onmessage_cases c message)
      as [(n & w & _ & Hn & -> & _ & -> & -> & _)|(_ & -> & _ & -> & -> & _)]; [|done].
    assert (n <> i) by congruence.
    rewrite lookup_delete_ne, settlements_snoc by done.
    case_decide; [done|]. by rewrite app_nil_r.
  - unfold onclose, notify_status. simpl. by destruct (connectionStatusHandler c).
  - destruct (on_timeout_cases c n)
      as [[_ ->]|[(m & w & _ & Hn & -> & _ & -> & ->)|(_ & -> & _ & -> & ->)]]; try done.
    assert (n <> i) by congruence.
    rewrite lookup_delete_ne, settlements_snoc by done.
    case_decide; [done|]. by rewrite app_nil_r.
Qed.

Lemma run_answered c events i :
  answered c i ->
  answered (run c events) i /\ settlements i (settled (run c events)) = settlements i (settled c).
Proof.
  revert c. induction events as [|e events IH]; intros c Ha; [done|].
  destruct (step_answered c e i Ha) as [Ha' E].
  destruct (IH (step c e) Ha') as [? E']. split; [done|]. simpl. by rewrite E', E.
Qed.

(** While nothing ends the wait, a pending request stays pending, with its
    timeout set and its promise unsettled. *)
Lemma step_waiting c e i w method :
  pendingRequests c !! i = Some w -> timers c !! i = Some method ->
  settlements i (settled c) = [] -> i <= messageId c -> ends_wait i e = false ->
  pendingRequests (step c e) !! i = Some w /\ timers (step c e) !! i = Some method /\
  settlements i (settled (step c e)) = [] /\ i <= messageId (step c e).
Proof.
  intros Hp Ht Hs Hi Hq.
  assert (forall m params w',
            pendingRequests (fst (sendRequest c m params w')) !! i = Some w /\
            timers (fst (sendRequest c m params w')) !! i = Some method /\
            settlements i (settled (fst (sendRequest c m params w'))) = [] /\
            i <= messageId (fst (sendRequest c m params w'))) as Hsend.
  { intros m params w'.
    destruct (sendRequest_cases c m params w')
      as [[_ ->]|(_ & _ & -> & -> & -> & _ & -> & _)]; [done|].
    rewrite !lookup_insert_ne by lia. repeat split; try done. lia. }
  assert (forall m params,
            pendingRequests (sendNotification c m params) !! i = Some w /\
            timers (sendNotification c m params) !! i = Some method /\
            settlements i (settled (sendNotification c m params)) = [] /\
            i <= messageId (sendNotification c m params)) as Hnote.
  { intros. unfold sendNotification. by destruct (negb (ws_open c)). }
  destruct e as [ | | | ? ? ? | ? | ? ? ? ? | ? ? ? | | | | message | | n ];
    simpl in *; try done; try apply Hsend; try apply Hnote.
  - unfold initialize. destruct (isInitialized c); [done | apply Hsend].
  - destruct (ws c) as [[]|]; try done. unfold onopen, notify_status. simpl.
    by destruct (connectionStatusHandler c).
  - unfold onerror, notify_status. by destruct (connectionStatusHandler c).
  - destruct (ws_open c); [|done].
    destruct (onmessage_cases c message)
      as [(n & w' & En & Hn & -> & -> & -> & -> & _)|(_ & -> & -> & -> & -> & _)]; [|done].
    rewrite En in Hq. apply bool_decide_eq_false in Hq.
    rewrite !lookup_delete_ne, settlements_snoc by done.
    case_decide; [done|]. by rewrite Hs.
  - unfold onclose, notify_status. simpl. by destruct (connectionStatusHandler c).
  - apply bool_decide_eq_false in Hq.
    destruct (on_timeout_cases c n)
      as [[_ ->]|[(m & w' & _ & Hn & -> & -> & -> & ->)|(_ & -> & -> & -> & ->)]]; try done.
    + rewrite !lookup_delete_ne, settlements_snoc by done.
      case_decide; [done|]. by rewrite Hs.
    + by rewrite lookup_delete_ne.
Qed.

Lemma run_waiting c events i w method :
  pendingRequests c !! i = Some w -> timers c !! i = Some method ->
  settlements i (settled c) = [] -> i <= messageId c ->
  forallb (fun e => negb (ends_wait i e)) events = true ->
  pendingRequests (run c events) !! i = Some w /\
  timers (run c events) !! i = Some method /\
  settlements i (settled (run c events)) = [] /\ i <= messageId (run c events).
Proof.
  revert c. induction events as [|e events IH]; intros c Hp Ht Hs Hi Hq; [done|].
  simpl in Hq. apply andb_true_iff in Hq as [He Hq]. apply negb_true_iff in He.
  destruct (step_waiting c e i w method Hp Ht Hs Hi He) as (? & ? & ? & ?).
  by apply IH.
Qed.

(** The error of a timeout names the method and the id: with the id known
    it tells the method, and with the method known it tells the id. *)
Lemma string_length_app (s t : string) :
  String.length (s +:+ t) = (String.length s + String.length t)%nat.
Proof. induction s as [|a s IH]; simpl; [done | by rewrite IH]. Qed.

Lemma string_app_inv_tail (s1 s2 t : string) : s1 +:+ t = s2 +:+ t -> s1 = s2.
Proof.
  revert s2. induction s1 as [|a s1 IH]; intros [|b s2] E; simpl in E; [done| | |].
  - apply (f_equal String.length) in E. simpl in E. rewrite !string_length_app in E.
    simpl in E. lia.
  - apply (f_equal String.length) in E. simpl in E. rewrite !string_length_app in E.
    simpl in E. lia.
  - injection E as -> E. f_equal. by apply IH.
Qed.

Lemma timeout_message_inj method method' i i' :
  timeout_message method' i' = timeout_message method i ->
  (i' = i -> method' = method) /\ (method' = method -> i' = i).
Proof.
  unfold timeout_message. intros E. apply String.app_inj in E. split.
  - intros ->. by apply string_app_inv_tail in E.
  - intros ->. do 2 apply String.app_inj in E.
    apply string_app_inv_tail in E. by apply pretty_Z_inj in E.
Qed.

(** C4.  A request that gets no response before its timeout fires (and is
    not cut short by [disconnect()]) is rejected by the timeout, once, with
    the error [Request <method> (id: <id>) timed out after 30 seconds],
    which names its method and id; a message bearing its id that arrives
    afterwards changes nothing, and nothing that happens later settles the
    request again. *)
Theorem C4_timeout_rejects_exactly_once c method params w events :
  Inv c -> ws_open c = true ->
  forallb (fun e => negb (ends_wait (messageId c + 1) e)) events = true ->
  let i := messageId c + 1 in
  let c1 := fst (sendRequest c method params w) in
  let c2 := step (run c1 events) (Timeout i) in
  snd (sendRequest c method params w) = Awaiting i /\
  settlements i (settled (run c1 events)) = [] /\
  settlements i (settled c2) = [Rejected (timeout_message method i)] /\
  (forall late, id late = Some (Num i) ->
     Client.method late <> Some "textDocument/publishDiagnostics" ->
     step c2 (Ws_message late) = c2) /\
  (forall after, settlements i (settled (run c2 after)) = [Rejected (timeout_message method i)]) /\
  timeout_message method i
  = "Request " +:+ method +:+ " (id: " +:+ pretty i +:+ ") timed out after 30 seconds" /\
  (forall method' i',
     timeout_message method' i' = timeout_message method i ->
     (i' = i -> method' = method) /\ (method' = method -> i' = i)).
Proof.
  intros HI Hopen Hq i c1 c2.
  destruct (sendRequest_cases c method params w)
    as [[? _]|(_ & Er & Em & Ep & Et & _ & Es & _)]; [congruence|].
  assert (settlements i (settled c) = []) as Hfresh.
  { destruct (settlements i (settled c)) eqn:E; [done|].
    assert (1 <= i <= messageId c); [|unfold i in *; lia].
    apply (inv_settled c HI). by rewrite E. }
  destruct (run_waiting c1 events i w method) as (Hp & Ht & Hs & Hi); try done.
  { unfold c1. rewrite Ep. apply lookup_insert_eq. }
  { unfold c1. rewrite Et. apply lookup_insert_eq. }
  { unfold c1. by rewrite Es. }
  { unfold c1. rewrite Em. unfold i. lia. }
  assert (settlements i (settled c2) = [Rejected (timeout_message method i)]
          /\ answered c2 i) as [Hs2 Ha2].
  { unfold c2. simpl.
    destruct (on_timeout_cases (run c1 events) i)
      as [[? _]|[(m' & w' & Et' & _ & Ep' & _ & Es' & Em')|(? & _)]]; try congruence.
    rewrite Es', settlements_snoc, Hs. rewrite decide_True by done.
    assert (m' = method) as -> by congruence. split; [done|].
    split; [rewrite Ep'; apply lookup_delete_eq | by rewrite Em']. }
  split; [done|]. split; [done|]. split; [done|]. split; [|split; [|split; [done|]]].
  - intros late Hid Hm. simpl. destruct (ws_open c2); [|done].
    unfold onmessage, handleMessage, pending_entry. rewrite Hid.
    destruct Ha2 as [-> _]. simpl. by rewrite decide_False.
  - intros after. destruct (run_answered c2 after i Ha2) as [_ ->]. done.
  - intros method' i'. apply timeout_message_inj.
Qed.

Lemma responses_in_order c delivered :
  Inv c -> ws_open c = true ->
  Forall (answers_pending c) delivered -> NoDup (id <$> delivered) ->
  let c' := run c (Ws_message <$> delivered) in
  (forall message n, message ∈ delivered -> id message = Some (Num n) ->
     settlements n (settled c') = [outcome message] /\ pendingRequests c' !! n = None) /\
  (forall j, (forall message, message ∈ delivered -> id message <> Some (Num j)) ->
     settlements j (settled c') = settlements j (settled c) /\
     pendingRequests c' !! j = pendingRequests c !! j).
Proof.
  revert c. induction delivered as [|m ms IH]; intros c HI Hopen Hall Hnd; cbv zeta.
  { split; [|done]. intros ? ? H. by apply elem_of_nil in H. }
  apply Forall_cons in Hall as [(n & w & En & Hn) Hall].
  rewrite fmap_cons in Hnd. apply NoDup_cons in Hnd as [Hfresh Hnd].
  rewrite fmap_cons.
  change (run c (Ws_message m :: (Ws_message <$> ms)))
    with (run (if ws_open c then onmessage c m else c) (Ws_message <$> ms)).
  rewrite Hopen.
  destruct (onmessage_cases c m)
    as [(n' & w' & En' & _ & Ep & _ & Es & _ & Ews)|(Hnone & _)].
  2:{ unfold pending_entry in Hnone. rewrite En, Hn in Hnone. done. }
  assert (n' = n) as -> by congruence.
  assert (forall m', m' ∈ ms -> id m' <> Some (Num n)) as Hothers.
  { intros m' Hin E. apply Hfresh. rewrite En, <- E. by apply list_elem_of_fmap_2. }
  destruct (IH (onmessage c m)) as [IH1 IH2]; try done.
  - by apply Inv_onmessage.
  - unfold ws_open in *. by rewrite Ews.
  - apply Forall_forall. intros m' Hin.
    rewrite Forall_forall in Hall. destruct (Hall m' Hin) as (n' & w'' & En'' & Hn').
    exists n', w''. split; [done|]. rewrite Ep, lookup_delete_ne; [done|].
    intros ->. by apply (Hothers m' Hin).
  - assert (settlements n (settled c) = []) as Hnone.
    { destruct (inv_pending c HI n w Hn) as [_ [method Ht]].
      by destruct (inv_timers c HI n method Ht). }
    split.
    + intros m0 n0 [->|Hin]%elem_of_cons E0; [|by apply IH1].
      assert (n0 = n) as -> by congruence.
      destruct (IH2 n Hothers) as [-> ->].
      rewrite Es, settlements_snoc, Hnone, decide_True by done.
      split; [done|]. rewrite Ep. apply lookup_delete_eq.
    + intros j Hj. destruct (IH2 j) as [-> ->].
      { intros m' Hin. apply Hj. by right. }
      assert (n <> j) as Hne.
      { intros ->. apply (Hj m); [by left | done]. }
      rewrite Es, settlements_snoc, Ep, decide_False, lookup_delete_ne by done.
      by rewrite app_nil_r.
Qed.

(** C5.  Responses to distinct outstanding requests, delivered in any
    order: each request is settled once, with the result or the error
    message of the response that bears its id, and a request whose id no
    response bears is left as it was. *)
Theorem C5_responses_correlate_by_id c responses delivered :
  Inv c -> ws_open c = true ->
  Forall (answers_pending c) responses -> NoDup (id <$> responses) ->
  delivered ≡ₚ responses ->
  let c' := run c (Ws_message <$> delivered) in
  (forall message n, message ∈ responses -> id message = Some (Num n) ->
     settlements n (settled c') = [outcome message] /\ pendingRequests c' !! n = None) /\
  (forall j, (forall message, message ∈ responses -> id message <> Some (Num j)) ->
     settlements j (settled c') = settlements j (settled c) /\
     pendingRequests c' !! j = pendingRequests c !! j).
Proof.
  intros HI Hopen Hall Hnd Hperm.
  destruct (responses_in_order c delivered HI Hopen) as [H1 H2].
  - by rewrite Hperm.
  - by rewrite Hperm.
  - split.
    + intros message n Hin. apply H1. by rewrite Hperm.
    + intros j Hj. apply H2. intros message Hin. apply Hj. by rewrite <- Hperm.
Qed.

End Correlation.

(** ** The client: the claims on ids, teardown and the handshake *)

Section Session.

Import Client Usage.

Lemma StronglySorted_seqZ m n : StronglySorted Z.lt (seqZ m n).
Proof.
  remember (Z.to_nat n) as k eqn:Hk. revert m n Hk.
  induction k as [|k IH]; intros m n Hk.
  - rewrite seqZ_nil by lia. constructor.
  - rewrite seqZ_cons by lia. constructor.
    + apply IH. lia.
    + apply Forall_seqZ. lia.
Qed.

(** C7.  In every state of a connection the ids of the requests sent so
    far are 1, 2, ..., [messageId], in that order: each is greater than all
    before it, none comes twice.  A request made on an open socket takes
    the id [messageId + 1] and is sent with it: 1 if it is the first request
    sent, and greater than every id sent before.  A request made on a socket
    that is not open takes no id. *)
Theorem C7_ids_count_up_from_one before after method params w :
  let c := session before after in
  let c' := fst (sendRequest c method params w) in
  (request_ids (sent c) = seqZ 1 (messageId c) /\
   StronglySorted Z.lt (request_ids (sent c)) /\
   NoDup (request_ids (sent c))) /\
  (ws_open c = true ->
     snd (sendRequest c method params w) = Awaiting (messageId c + 1) /\
     sent c' = sent c ++ [Request (messageId c + 1) method params] /\
     request_ids (sent c') = request_ids (sent c) ++ [messageId c + 1] /\
     messageId c' = messageId c + 1 /\
     (request_ids (sent c) = [] -> messageId c + 1 = 1) /\
     Forall (fun j => 1 <= j < messageId c + 1) (request_ids (sent c))) /\
  (ws_open c = false -> c' = c).
Proof.
  intros c c'. pose proof (Inv_session before after) as HI. fold c in HI.
  split.
  { rewrite (inv_ids c HI). auto using StronglySorted_seqZ, NoDup_seqZ. }
  split.
  - intros Hopen.
    destruct (sendRequest_cases c method params w)
      as [[? _]|(_ & Er & Em & _ & _ & Es & _)]; [congruence|].
    fold c' in Em, Es.
    split; [done|]. split; [done|].
    split; [rewrite Es, request_ids_app; simpl; done|].
    split; [done|]. rewrite (inv_ids c HI). split.
    + intros E. pose proof (inv_messageId c HI) as H0.
      destruct (decide (messageId c = 0)) as [->|Hne]; [done|].
      rewrite seqZ_cons in E by lia. done.
    + apply Forall_seqZ. lia.
  - intros Hclosed.
    destruct (sendRequest_cases c method params w) as [[_ E]|[? _]]; [|congruence].
    unfold c'. by rewrite E.
Qed.

(** C10.  [sendRequest] on a client whose socket is not open returns a
    promise rejected with "WebSocket not connected" and changes nothing:
    no id is taken, no entry stored, no timeout set, nothing sent. *)
Theorem C10_sendRequest_not_connected c method params w :
  ws_open c = false ->
  sendRequest c method params w = (c, Settled (Rejected "WebSocket not connected")).
Proof. intros H. unfold sendRequest. by rewrite H. Qed.

(** After [disconnect()] the requests that were pending are never
    settled, whatever happens next. *)
Lemma disconnect_abandons_pending c i events :
  Inv c -> is_Some (pendingRequests c !! i) ->
  settlements i (settled (run (disconnect c) events)) = [].
Proof.
  intros HI [w Hw]. destruct (inv_pending c HI i w Hw) as [Hi [m Hm]].
  destruct (inv_timers c HI i m Hm) as [_ Hs].
  destruct (run_answered (disconnect c) events i) as [_ ->].
  - unfold answered, disconnect. destruct (ws c); simpl; (split; [apply lookup_empty | lia]).
  - unfold disconnect. by destruct (ws c).
Qed.

(** After the socket has closed nothing is sent and no id is taken. *)
Lemma step_closed c e :
  closed c ->
  closed (step c e) /\ sent (step c e) = sent c /\ messageId (step c e) = messageId c.
Proof.
  intros [Hopen Hws]. unfold closed.
  assert (forall m params w, sendRequest c m params w
            = (c, Settled (Rejected "WebSocket not connected"))) as Hsend.
  { intros. unfold sendRequest. by rewrite Hopen. }
  assert (forall m params, sendNotification c m params = c) as Hnote.
  { intros. unfold sendNotification. by rewrite Hopen. }
  destruct e as [ | | | ? ? ? | ? | ? ? ? ? | ? ? ? | | | | message | | n ];
    simpl; unfold getHover, getSemanticTokens, didOpenTextDocument, didChangeTextDocument;
    rewrite ?Hsend, ?Hnote, ?Hopen; try done.
  - unfold initialize. destruct (isInitialized c); [done|]. by rewrite Hsend.
  - unfold disconnect, ws_open. destruct (ws c) eqn:E; simpl; rewrite ?E; done.
  - destruct (ws c) as [[]|] eqn:E; rewrite ?E; done.
  - unfold onerror, notify_status. by destruct (connectionStatusHandler c).
  - unfold onclose, notify_status, ws_open. simpl.
    destruct (connectionStatusHandler c); simpl; by destruct (ws c).
  - unfold on_timeout, ws_open in *. destruct (timers c !! n); [|done]. simpl.
    by destruct (pendingRequests c !! n).
Qed.

Lemma run_closed c events :
  closed c ->
  closed (run c events) /\ sent (run c events) = sent c
  /\ messageId (run c events) = messageId c.
Proof.
  revert c. induction events as [|e events IH]; intros c H; [done|].
  destruct (step_closed c e H) as (H1 & H2 & H3).
  destruct (IH (step c e) H1) as (? & ? & ?).
  change (run c (e :: events)) with (run (step c e) events).
  split; [done|]. split; congruence.
Qed.

Lemma closed_onclose c : closed (step c Ws_close).
Proof.
  unfold closed, ws_open. simpl. unfold onclose, notify_status. simpl.
  destruct (connectionStatusHandler c); simpl; by destruct (ws c).
Qed.

(** On a closed socket a pending request goes on waiting through every
    event but its own timeout and [disconnect()]: a message is no longer
    delivered. *)
Lemma step_after_close c e i w method :
  closed c ->
  pendingRequests c !! i = Some w -> timers c !! i = Some method ->
  settlements i (settled c) = [] -> i <= messageId c ->
  e <> Timeout i -> is_disconnect e = false ->
  pendingRequests (step c e) !! i = Some w /\ timers (step c e) !! i = Some method /\
  settlements i (settled (step c e)) = [] /\ i <= messageId (step c e).
Proof.
  intros [Hopen _] Hp Ht Hs Hi Hne Hd.
  destruct (ends_wait i e) eqn:E; [|by apply (step_waiting c e i w method)].
  destruct e as [ | | | ? ? ? | ? | ? ? ? ? | ? ? ? | | | | message | | n ];
    try discriminate.
  - simpl. by rewrite Hopen.
  - simpl in E. apply bool_decide_eq_true in E. congruence.
Qed.

(** What becomes of a request that is pending on a closed socket: nothing
    settles it but its own timeout, which rejects it with the timeout
    error if [disconnect()] has not been called before. *)
Lemma run_after_close c events i w method :
  closed c ->
  pendingRequests c !! i = Some w -> timers c !! i = Some method ->
  settlements i (settled c) = [] -> i <= messageId c ->
  (settlements i (settled (run c events)) = [] \/
   settlements i (settled (run c events)) = [Rejected (timeout_message method i)]) /\
  (Timeout i ∉ events -> settlements i (settled (run c events)) = []) /\
  (forall before after,
     events = before ++ Timeout i :: after -> Timeout i ∉ before ->
     forallb (fun e => negb (is_disconnect e)) before = true ->
     settlements i (settled (run c events)) = [Rejected (timeout_message method i)]).
Proof.
  revert c. induction events as [|e events IH]; intros c Hc Hp Ht Hs Hi.
  { split; [by left|]. split; [done|]. by intros [|??] ?. }
  change (run c (e :: events)) with (run (step c e) events).
  destruct (is_disconnect e) eqn:Ed.
  { assert (answered (step c e) i /\ settled (step c e) = settled c) as [Ha Es].
    { destruct e; try discriminate. simpl. unfold answered, disconnect.
      destruct (ws c); simpl; (split; [split; [apply lookup_empty | done] | done]). }
    destruct (run_answered (step c e) events i Ha) as [_ E]. rewrite E, Es, Hs.
    split; [by left|]. split; [done|].
    intros [|e' before] after Hev Hnot Hall.
    - injection Hev as -> _. discriminate.
    - injection Hev as <- _. simpl in Hall. by rewrite Ed in Hall. }
  assert (e = Timeout i \/ e <> Timeout i) as [->|Hne].
  { destruct e as [ | | | ? ? ? | ? | ? ? ? ? | ? ? ? | | | | message | | n ];
      try (right; discriminate).
    destruct (decide (n = i)) as [->|]; [by left | right; congruence]. }
  { assert (answered (step c (Timeout i)) i /\
            settlements i (settled (step c (Timeout i)))
            = [Rejected (timeout_message method i)]) as [Ha Es].
    { simpl. destruct (on_timeout_cases c i)
        as [[? _]|[(m' & w' & Et' & _ & Ep' & _ & Es' & Em')|(? & _)]]; try congruence.
      assert (m' = method) as -> by congruence.
      rewrite Es', settlements_snoc, Hs, decide_True by done.
      split; [|done]. split; [rewrite Ep'; apply lookup_delete_eq | by rewrite Em']. }
    destruct (run_answered _ events i Ha) as [_ E]. rewrite E, Es.
    split; [by right|]. split; [|done].
    intros Hnot. exfalso. apply Hnot. by left. }
  destruct (step_after_close c e i w method Hc Hp Ht Hs Hi Hne Ed) as (Hp' & Ht' & Hs' & Hi').
  destruct (step_closed c e Hc) as [Hc' _].
  destruct (IH (step c e) Hc' Hp' Ht' Hs' Hi') as (H1 & H2 & H3).
  split; [done|]. split.
  - intros Hnot. apply H2. intros Hin. apply Hnot. by right.
  - intros [|e' before] after Hev Hnot Hall.
    + injection Hev as -> _. done.
    + injection Hev as <- ->. simpl in Hall. apply andb_true_iff in Hall as [_ Hall].
      apply (H3 before after); [done| |done].
      intros Hin. apply Hnot. by right.
Qed.

(** C3, as the code has it.  Reaching a terminal state rejects nothing:
    neither the socket's close event, nor its error event, nor
    [disconnect()] calls a [reject], and no connection-loss error exists.
    The close event leaves the pending requests and their timeouts in
    place.  From then on, whatever happens, a request that was pending is
    never resolved, and it is rejected by nothing but its own timeout: it
    stays unsettled as long as its timeout has not fired, and when the
    timeout fires (no [disconnect()] having come first) it is rejected,
    once, with the timeout error. *)
Theorem C3_terminal_states_reject_nothing c i w method :
  Inv c -> pendingRequests c !! i = Some w -> timers c !! i = Some method ->
  (pendingRequests (disconnect c) = ∅ /\ settled (disconnect c) = settled c /\
   timers (disconnect c) = timers c) /\
  (pendingRequests (onclose c) = pendingRequests c /\ settled (onclose c) = settled c /\
   timers (onclose c) = timers c) /\
  settled (on_timeout (onclose c) i)
    = settled c ++ [(i, Rejected (timeout_message method i))] /\
  settled (onerror c) = settled c /\
  (forall events,
     (settlements i (settled (run (step c Ws_close) events)) = [] \/
      settlements i (settled (run (step c Ws_close) events))
      = [Rejected (timeout_message method i)]) /\
     (Timeout i ∉ events ->
      settlements i (settled (run (step c Ws_close) events)) = [])) /\
  (forall before after,
     Timeout i ∉ before ->
     forallb (fun e => negb (is_disconnect e)) before = true ->
     settlements i (settled (run (step c Ws_close) (before ++ Timeout i :: after)))
     = [Rejected (timeout_message method i)]).
Proof.
  intros HI Hp Ht.
  assert (pendingRequests (onclose c) = pendingRequests c /\ settled (onclose c) = settled c
          /\ timers (onclose c) = timers c) as (E1 & E2 & E3).
  { unfold onclose, notify_status. simpl. by destruct (connectionStatusHandler c). }
  destruct (inv_timers c HI i method Ht) as [[_ Hi] Hs].
  assert (forall events,
            (settlements i (settled (run (step c Ws_close) events)) = [] \/
             settlements i (settled (run (step c Ws_close) events))
             = [Rejected (timeout_message method i)]) /\
            (Timeout i ∉ events ->
             settlements i (settled (run (step c Ws_close) events)) = []) /\
            (forall before after,
               events = before ++ Timeout i :: after -> Timeout i ∉ before ->
               forallb (fun e => negb (is_disconnect e)) before = true ->
               settlements i (settled (run (step c Ws_close) events))
               = [Rejected (timeout_message method i)])) as Hrun.
  { intros events. apply (run_after_close _ events i w method).
    - apply closed_onclose.
    - simpl. by rewrite E1.
    - simpl. by rewrite E3.
    - simpl. by rewrite E2.
    - simpl. unfold onclose, notify_status. simpl.
      by destruct (connectionStatusHandler c). }
  split; [repeat split; unfold disconnect; by destruct (ws c)|].
  split; [done|]. split.
  { destruct (on_timeout_cases (onclose c) i)
      as [[Hn _]|[(m' & w' & Et' & _ & _ & _ & -> & _)|(Hn & _)]]; congruence. }
  split; [unfold onerror, notify_status; by destruct (connectionStatusHandler c)|].
  split.
  - intros events. destruct (Hrun events) as (H1 & H2 & _). done.
  - intros before after Hnot Hall.
    destruct (Hrun (before ++ Timeout i :: after)) as (_ & _ & H3). by apply (H3 before after).
Qed.

Lemma step_initialized_once c e : initialized_once c -> initialized_once (step c e).
Proof.
  intros [Hws Hinit]. unfold initialized_once, ws_open in *.
  assert (forall m params w,
            ws (fst (sendRequest c m params w)) = ws c /\
            isInitialized (fst (sendRequest c m params w)) = isInitialized c) as Hsend.
  { intros. unfold sendRequest. by destruct (negb (Client.ws_open c)). }
  assert (forall m params,
            ws (sendNotification c m params) = ws c /\
            isInitialized (sendNotification c m params) = isInitialized c) as Hnote.
  { intros. unfold sendNotification. by destruct (negb (Client.ws_open c)). }
  destruct e as [ | | | ? ? ? | ? | ? ? ? ? | ? ? ? | | | | message | | n ];
    simpl; unfold getHover, getSemanticTokens, didOpenTextDocument, didChangeTextDocument;
    try done;
    try (match goal with |- context [sendRequest c ?m ?p ?w] =>
           destruct (Hsend m p w) as [-> ->] end; done);
    try (match goal with |- context [sendNotification c ?m ?p] =>
           destruct (Hnote m p) as [-> ->] end; done).
  - unfold initialize. destruct (isInitialized c) eqn:E;
      [simpl; split; [done | congruence] |].
    by destruct (Hsend "initialize" initialize_params AwaitedByInitialize) as [-> ->].
  - unfold disconnect. destruct (ws c) eqn:E; simpl; by rewrite ?E.
  - destruct (ws c) as [[]|] eqn:E; rewrite ?E; done.
  - unfold onerror, notify_status. by destruct (connectionStatusHandler c).
  - destruct (Client.ws_open c) eqn:Eo; [|done].
    unfold onmessage, handleMessage.
    destruct (pending_entry c message) as [[n w]|].
    + destruct (error message); [done|]. unfold entry_resolve.
      destruct w; [|done]. unfold initialize_resume, sendNotification. simpl.
      by destruct (negb (Client.ws_open _)).
    + destruct (decide _); [|done]. destruct (params message); try done;
        by destruct (diagnosticsHandler c).
  - unfold onclose, notify_status. simpl.
    destruct (connectionStatusHandler c); simpl; by destruct (ws c).
  - unfold on_timeout. destruct (timers c !! n); [|done]. simpl.
    by destruct (pendingRequests c !! n).
Qed.

Lemma run_initialized_once c events : initialized_once c -> initialized_once (run c events).
Proof.
  revert c. induction events as [|e events IH]; intros c H; [done|].
  apply IH. by apply step_initialized_once.
Qed.

Lemma initialize_again c : initialized_once c -> fst (initialize c) = c.
Proof.
  intros [_ H]. unfold initialize. destruct (isInitialized c); [done|].
  unfold sendRequest. by rewrite H.
Qed.

(** C8.  The handshake runs once.  On an open socket the first call of
    [initialize()] sends one [initialize] request and waits; when its
    result arrives, one [initialized] notification is sent, the promise is
    resolved with the result and the client is initialized; a call made
    then, or after anything that happens later on the connection, sends
    nothing and leaves the client as it is. *)
Theorem C8_initialize_is_one_shot c between result after :
  isInitialized c = false -> ws c = Some OPEN ->
  let i := messageId c + 1 in
  let c1 := fst (initialize c) in
  let c1' := run c1 between in
  pendingRequests c1' !! i = Some AwaitedByInitialize -> ws c1' = Some OPEN ->
  let c2 := step c1' (Ws_message (response i None result)) in
  let c3 := run c2 after in
  snd (initialize c) = Awaiting i /\
  sent c1 = sent c ++ [Request i "initialize" initialize_params] /\
  sent c2 = sent c1' ++ [Notification "initialized" (Object [])] /\
  settled c2 = settled c1' ++ [(i, Resolved result)] /\
  isInitialized c2 = true /\
  initialize c2 = (c2, Settled (Resolved Undefined)) /\
  fst (initialize c3) = c3.
Proof.
  intros Hinit Hws i c1 c1' Hp Hws' c2 c3.
  assert (c2 = initialize_resume
                 (settle (clearTimeout
                            (set_pendingRequests c1' (delete i (pendingRequests c1'))) i)
                    i (Resolved result))) as E2.
  { unfold c2. simpl. unfold ws_open. rewrite Hws'.
    unfold onmessage, handleMessage, pending_entry. simpl. by rewrite Hp. }
  assert (isInitialized c2 = true) as Hinit2 by (by rewrite E2).
  assert (initialized_once c2) as Honce.
  { split; [|congruence]. rewrite E2. unfold initialize_resume, sendNotification, ws_open.
    simpl. rewrite Hws'. simpl. by rewrite Hws'. }
  unfold c1, initialize. rewrite Hinit.
  destruct (sendRequest_cases c "initialize" initialize_params AwaitedByInitialize)
    as [[Hc _]|(_ & -> & _ & _ & _ & -> & _)].
  { unfold ws_open in Hc. by rewrite Hws in Hc. }
  repeat split; try done.
  - rewrite E2. unfold initialize_resume, sendNotification, ws_open. simpl.
    by rewrite Hws'.
  - rewrite E2. unfold initialize_resume, sendNotification, ws_open. simpl.
    by rewrite Hws'.
  - unfold initialize. by rewrite Hinit2.
  - apply initialize_again. by apply run_initialized_once.
Qed.

End Session.

(** ** The problems list *)

Section Diagnostics.

Import Editor.

Lemma filter_none {A} (P : A -> Prop) `{!forall x, Decision (P x)} (l : list A) :
  Forall (fun x => ~ P x) l -> filter P l = [].
Proof. induction 1; [done|]. by rewrite filter_cons_False. Qed.

Lemma filter_all {A} (P : A -> Prop) `{!forall x, Decision (P x)} (l : list A) :
  Forall P l -> filter P l = l.
Proof. induction 1 as [|x l Hx _ IH]; [done|]. by rewrite filter_cons_True, IH. Qed.

Lemma filter_iff_on {A} (P Q : A -> Prop)
    `{!forall x, Decision (P x), !forall x, Decision (Q x)} (l : list A) :
  Forall (fun x => P x <-> Q x) l -> filter P l = filter Q l.
Proof.
  induction 1 as [|x l Hx _ IH]; [done|]. rewrite !filter_cons, IH.
  destruct (decide (P x)), (decide (Q x)); tauto.
Qed.

Lemma newErrors_uri u ds : Forall (fun error => uri error = u) (map (newError u) ds).
Proof. induction ds; by constructor. Qed.

(** A publish for [u] replaces what the list held for [u]. *)
Lemma publishDiagnostics_same u ds prev :
  filter (fun error => uri error = u) (publishDiagnostics u ds prev) = map (newError u) ds.
Proof.
  unfold publishDiagnostics. rewrite filter_app, list_filter_filter.
  rewrite filter_none.
  - simpl. apply filter_all, newErrors_uri.
  - apply Forall_forall. intros x _ [H1 H2]. done.
Qed.

(** And leaves alone what the list held for another document. *)
Lemma publishDiagnostics_other u v ds prev :
  u <> v ->
  filter (fun error => uri error = v) (publishDiagnostics u ds prev)
  = filter (fun error => uri error = v) prev.
Proof.
  intros Hne. unfold publishDiagnostics. rewrite filter_app, list_filter_filter.
  rewrite (filter_none _ (map _ _)).
  - rewrite app_nil_r. apply list_filter_iff. intros x. split; [by intros [? _]|].
    intros Hx. split; [done | congruence].
  - eapply Forall_impl; [apply newErrors_uri|]. simpl. congruence.
Qed.

Lemma currentErrors_after_snoc prev ps p :
  currentErrors_after prev (ps ++ [p])
  = publishDiagnostics (fst p) (snd p) (currentErrors_after prev ps).
Proof. unfold currentErrors_after. by rewrite fold_left_app. Qed.

Lemma latest_snoc u ps p :
  latest u (ps ++ [p]) = if decide (fst p = u) then snd p else latest u ps.
Proof. unfold latest. by rewrite fold_left_app. Qed.

(** What the list holds for a document is the set last published for it. *)
Lemma currentErrors_by_uri u ps :
  filter (fun error => uri error = u) (currentErrors_after [] ps)
  = map (newError u) (latest u ps).
Proof.
  induction ps as [|p ps IH] using rev_ind; [done|].
  rewrite currentErrors_after_snoc, latest_snoc. case_decide as Hp.
  - subst. apply publishDiagnostics_same.
  - by rewrite publishDiagnostics_other.
Qed.

Lemma currentErrors_uris ps :
  Forall (fun error => exists p, p ∈ ps /\ uri error = fst p) (currentErrors_after [] ps).
Proof.
  induction ps as [|p ps IH] using rev_ind; [constructor|].
  rewrite currentErrors_after_snoc. unfold publishDiagnostics. apply Forall_app. split.
  - apply Forall_forall. intros x [_ Hx]%list_elem_of_filter.
    rewrite Forall_forall in IH. destruct (IH x Hx) as (q & Hq & E).
    exists q. split; [|done]. apply elem_of_app. by left.
  - eapply Forall_impl; [apply newErrors_uri|]. simpl. intros x E.
    exists p. split; [|done]. apply elem_of_app. right. by left.
Qed.

(** C9.  A publish for a document replaces what the list held for it, and
    after any sequence of publishes for the documents [A] and [B] the list
    is the set last published for [A] together with the set last published
    for [B], and nothing else. *)
Theorem C9_diagnostics_replace_per_uri A B ps :
  A <> B -> Forall (fun p => fst p = A \/ fst p = B) ps ->
  (forall u ds prev,
     filter (fun error => uri error = u) (publishDiagnostics u ds prev)
     = map (newError u) ds) /\
  filter (fun error => uri error = A) (currentErrors_after [] ps)
    = map (newError A) (latest A ps) /\
  filter (fun error => uri error = B) (currentErrors_after [] ps)
    = map (newError B) (latest B ps) /\
  currentErrors_after [] ps ≡ₚ map (newError A) (latest A ps) ++ map (newError B) (latest B ps).
Proof.
  intros Hne Hps. split; [apply publishDiagnostics_same|].
  split; [apply currentErrors_by_uri|]. split; [apply currentErrors_by_uri|].
  rewrite <- !currentErrors_by_uri.
  set (l := currentErrors_after [] ps).
  rewrite <- (filter_app_complement (fun error => uri error = A) l) at 1.
  f_equiv. erewrite filter_iff_on; [reflexivity|].
  eapply Forall_impl; [apply currentErrors_uris|]. simpl.
  intros x (p & Hp & E). rewrite Forall_forall in Hps.
  destruct (Hps p Hp); split; congruence.
Qed.

End Diagnostics.

(** ** The claims at sample inputs *)

(** C3 at a sample input: request 1 is outstanding; after [disconnect()],
    and likewise after the socket's close event, no promise has been
    rejected. *)
Lemma C3_pending_request_not_rejected :
  Client.pendingRequests Samples.hover_pending !! 1 = Some Client.AwaitedByCaller /\
  Client.settled (Client.disconnect Samples.hover_pending) = [] /\
  Client.pendingRequests (Client.disconnect Samples.hover_pending) !! 1 = None /\
  Client.settled (Client.step Samples.hover_pending Client.Ws_close) = [].
Proof. do 3 (split; [vm_compute; reflexivity|]). vm_compute. reflexivity. Qed.

(** C3 at a sample input: request 1 is outstanding when the socket closes;
    its response and another call come too late, then its timeout
    fires. *)
Lemma C3_witness :
  Client.Inv Samples.hover_pending /\
  Client.pendingRequests Samples.hover_pending !! 1 = Some Client.AwaitedByCaller /\
  Client.timers Samples.hover_pending !! 1 = Some "textDocument/hover" /\
  Client.settled (Client.on_timeout (Client.onclose Samples.hover_pending) 1)
    = Client.settled Samples.hover_pending
      ++ [(1, Client.Rejected (Client.timeout_message "textDocument/hover" 1))] /\
  Client.settlements 1
    (Client.settled
       (Client.run (Client.step Samples.hover_pending Client.Ws_close)
          ([Client.Ws_message Samples.response_1;
            Client.Call_getHover "file:///main.sysml" 0 8]
           ++ Client.Timeout 1 :: [Client.Ws_message Samples.response_1])))
  = [Client.Rejected (Client.timeout_message "textDocument/hover" 1)].
Proof.
  assert (Client.Inv Samples.hover_pending) as HI by apply Inv_run, Inv_session.
  assert (Client.pendingRequests Samples.hover_pending !! 1 = Some Client.AwaitedByCaller)
    as H1 by (vm_compute; reflexivity).
  assert (Client.timers Samples.hover_pending !! 1 = Some "textDocument/hover")
    as H2 by (vm_compute; reflexivity).
  assert (Client.Timeout 1 ∉ [Client.Ws_message Samples.response_1;
                               Client.Call_getHover "file:///main.sysml" 0 8]) as H3.
  { rewrite !elem_of_cons, elem_of_nil. intros H. intuition discriminate. }
  pose proof (C3_terminal_states_reject_nothing Samples.hover_pending 1
                Client.AwaitedByCaller "textDocument/hover" HI H1 H2) as H.
  split; [exact HI|]. split; [exact H1|]. split; [exact H2|].
  split; [exact (proj1 (proj2 (proj2 H)))|].
  exact (proj2 (proj2 (proj2 (proj2 (proj2 H)))) _ _ H3 eq_refl).
Defined.

(** C4 at a sample input: request 1 waits while another request is sent and
    answered and the socket closes; then its timeout fires. *)
Lemma C4_witness :
  Client.ws_open Samples.open_client = true /\
  forallb (fun e => negb (Client.ends_wait (Client.messageId Samples.open_client + 1) e))
    Samples.while_waiting = true /\
  Client.settlements (Client.messageId Samples.open_client + 1)
    (Client.settled
       (Client.step
          (Client.run
             (fst (Client.sendRequest Samples.open_client "textDocument/hover"
                     Client.Null Client.AwaitedByCaller))
             Samples.while_waiting)
          (Client.Timeout (Client.messageId Samples.open_client + 1))))
  = [Client.Rejected
       (Client.timeout_message "textDocument/hover"
          (Client.messageId Samples.open_client + 1))].
Proof.
  assert (Client.ws_open Samples.open_client = true) as H1 by reflexivity.
  assert (forallb (fun e => negb (Client.ends_wait (Client.messageId Samples.open_client + 1) e))
            Samples.while_waiting = true) as H2 by reflexivity.
  split; [exact H1|]. split; [exact H2|].
  exact (proj1 (proj2 (proj2
    (C4_timeout_rejects_exactly_once Samples.open_client "textDocument/hover"
       Client.Null Client.AwaitedByCaller Samples.while_waiting
       (Inv_session _ _) H1 H2)))).
Defined.

(** C4 at a sample input where [disconnect()] comes first: request 1 gets
    no response, [disconnect()] is called before the deadline, then the
    timeout's time comes.  The request has been rejected zero times, and
    stays so when its response and the timeout come once more. *)
Lemma C4_disconnect_before_deadline :
  Client.pendingRequests Samples.hover_pending !! 1 = Some Client.AwaitedByCaller /\
  Client.timers Samples.hover_pending !! 1 = Some "textDocument/hover" /\
  Client.settlements 1
    (Client.settled
       (Client.run Samples.hover_pending [Client.Call_disconnect; Client.Timeout 1]))
  = [] /\
  Client.settlements 1
    (Client.settled
       (Client.run Samples.hover_pending
          [Client.Call_disconnect; Client.Timeout 1;
           Client.Ws_message Samples.response_1; Client.Timeout 1]))
  = [].
Proof.
  do 3 (split; [vm_compute; reflexivity|]). vm_compute. reflexivity.
Qed.

(** C5 at a sample input: three requests outstanding, the responses
    delivered in the order 3, 1, 2. *)
Lemma C5_witness :
  Client.settlements 1
    (Client.settled
       (Client.run Samples.three_pending
          (Client.Ws_message <$> [Samples.response_3; Samples.response_1; Samples.response_2])))
  = [Client.outcome Samples.response_1] /\
  Client.settlements 2
    (Client.settled
       (Client.run Samples.three_pending
          (Client.Ws_message <$> [Samples.response_3; Samples.response_1; Samples.response_2])))
  = [Client.outcome Samples.response_2].
Proof.
  assert (Client.Inv Samples.three_pending) as HI by apply Inv_run, Inv_session.
  assert (Forall (Client.answers_pending Samples.three_pending)
            [Samples.response_1; Samples.response_2; Samples.response_3]) as Hall.
  { repeat constructor.
    - by exists 1, Client.AwaitedByCaller.
    - by exists 2, Client.AwaitedByCaller.
    - by exists 3, Client.AwaitedByCaller. }
  assert (NoDup (Client.id <$> [Samples.response_1; Samples.response_2; Samples.response_3]))
    as Hnd.
  { repeat (constructor; [rewrite ?elem_of_cons, elem_of_nil; intros H; intuition discriminate|]).
    constructor. }
  pose proof (C5_responses_correlate_by_id Samples.three_pending
                [Samples.response_1; Samples.response_2; Samples.response_3]
                [Samples.response_3; Samples.response_1; Samples.response_2]
                HI eq_refl Hall Hnd
                (Permutation_middle [Samples.response_1; Samples.response_2] []
                   Samples.response_3)) as [H _].
  split.
  - apply (H Samples.response_1 1); [by left | done].
  - apply (H Samples.response_2 2); [right; by left | done].
Defined.

(** C7 at sample inputs: the first request of a connection gets id 1; a
    request made when one has been sent gets id 2. *)
Lemma C7_witness :
  Client.ws_open (Client.session [Client.Call_setConnectionStatusHandler] [Client.Ws_open])
  = true /\
  Client.request_ids
    (Client.sent
       (Client.session [Client.Call_setConnectionStatusHandler] [Client.Ws_open]))
  = [] /\
  Client.request_ids
    (Client.sent
       (fst (Client.sendRequest
               (Client.session [Client.Call_setConnectionStatusHandler] [Client.Ws_open])
               "textDocument/hover" Client.Null Client.AwaitedByCaller)))
  = [1] /\
  Client.request_ids
    (Client.sent
       (fst (Client.sendRequest
               (Client.session [Client.Call_setConnectionStatusHandler] Samples.hover_asked)
               "initialize" Client.initialize_params Client.AwaitedByInitialize)))
  = Client.request_ids
      (Client.sent
         (Client.session [Client.Call_setConnectionStatusHandler] Samples.hover_asked))
    ++ [2].
Proof.
  split; [reflexivity|]. split; [reflexivity|]. split.
  - exact (proj1 (proj2 (proj2
      (proj1 (proj2
         (C7_ids_count_up_from_one [Client.Call_setConnectionStatusHandler]
            [Client.Ws_open] "textDocument/hover" Client.Null Client.AwaitedByCaller))
         eq_refl)))).
  - exact (proj1 (proj2 (proj2
      (proj1 (proj2
         (C7_ids_count_up_from_one [Client.Call_setConnectionStatusHandler]
            Samples.hover_asked "initialize" Client.initialize_params
            Client.AwaitedByInitialize))
         eq_refl)))).
Defined.

(** C8 at a sample input: the first call on a socket that has just
    opened. *)
Lemma C8_witness :
  Client.isInitialized Samples.open_client = false /\
  Client.ws Samples.open_client = Some Client.OPEN /\
  Client.sent (fst (Client.initialize Samples.open_client))
  = Client.sent Samples.open_client
    ++ [Client.Request (Client.messageId Samples.open_client + 1) "initialize"
          Client.initialize_params].
Proof.
  assert (Client.isInitialized Samples.open_client = false) as H1 by reflexivity.
  assert (Client.ws Samples.open_client = Some Client.OPEN) as H2 by reflexivity.
  split; [exact H1|]. split; [exact H2|].
  exact (proj1 (proj2
    (C8_initialize_is_one_shot Samples.open_client
       [Client.Call_getHover "file:///main.sysml" 0 8] Samples.server_capabilities
       [Client.Ws_close; Client.Call_initialize] H1 H2 eq_refl eq_refl))).
Defined.

(** C9 at a sample input: three publishes over two documents. *)
Lemma C9_witness :
  "file:///main.sysml" <> "file:///library.sysml" /\
  Editor.currentErrors_after [] Samples.publishes
  ≡ₚ map (Editor.newError "file:///main.sysml")
       (Editor.latest "file:///main.sysml" Samples.publishes)
     ++ map (Editor.newError "file:///library.sysml")
          (Editor.latest "file:///library.sysml" Samples.publishes).
Proof.
  assert ("file:///main.sysml" <> "file:///library.sysml") as H1 by discriminate.
  assert (Forall (fun p : string * list Lsp.Diagnostic =>
                    fst p = "file:///main.sysml" \/ fst p = "file:///library.sysml")
            Samples.publishes) as H2.
  { unfold Samples.publishes.
    repeat (apply List.Forall_cons; [simpl; auto|]). apply List.Forall_nil. }
  split; [exact H1|].
  exact (proj2 (proj2 (proj2
    (C9_diagnostics_replace_per_uri "file:///main.sysml" "file:///library.sysml"
       Samples.publishes H1 H2)))).
Defined.

(** C10 at a sample input: a client that never connected. *)
Lemma C10_witness :
  Client.ws_open Client.new_client = false /\
  Client.sendRequest Client.new_client "textDocument/hover" Client.Null Client.AwaitedByCaller
  = (Client.new_client, Client.Settled (Client.Rejected "WebSocket not connected")).
Proof.
  split; [reflexivity|].
  exact (C10_sendRequest_not_connected Client.new_client "textDocument/hover"
           Client.Null Client.AwaitedByCaller eq_refl).
Defined.

(** * Further properties *)

(** ** The decode loop and the frame encoder *)

Section DecoderMore.

Import Js Utf8 Proxy.

Variable JSON_parse : list Z -> bool.

Local Abbreviation loop_body := (Proxy.loop_body JSON_parse).
Local Abbreviation drain := (Proxy.drain JSON_parse).
Local Abbreviation stdout_on_data := (Proxy.stdout_on_data JSON_parse).
Local Abbreviation stdout_on_chunks := (Proxy.stdout_on_chunks JSON_parse).

(** The socket's state decides only whether a parsed body is sent. *)
Lemma loop_body_readyState rs b :
  loop_body rs b =
  match loop_body OPEN b with
  | Break => Break
  | Continue b' sent => Continue b' (if rs =? OPEN then sent else [])
  end.
Proof.
  unfold Proxy.loop_body. cbv zeta.
  destruct (indexOf b CRLFCRLF =? -1); [done|].
  destruct (match_Content_Length _); [|by destruct (rs =? OPEN)].
  destruct (_ <? _); [done|].
  destruct (JSON_parse _); by destruct (rs =? OPEN).
Qed.

Lemma loop_body_sent_parses rs b b' sent :
  loop_body rs b = Continue b' sent -> Forall (fun m => JSON_parse m = true) sent.
Proof.
  intros H.
  destruct (loop_body_cases JSON_parse rs b)
    as [[_ E]|(h & _ & _ & _ & [[_ E]|(ds & _ & _ & [[_ E]|[_ E]])])];
    rewrite E in H; try done; injection H as _ <-; [constructor|].
  destruct (JSON_parse _) eqn:Ej; [|constructor].
  destruct (rs =? OPEN); repeat constructor. done.
Qed.

Lemma drain_ind (P : list Z -> Prop) rs :
  (forall b, loop_body rs b = Break -> P b) ->
  (forall b b' sent, loop_body rs b = Continue b' sent -> P b' -> P b) ->
  forall b, P b.
Proof.
  intros Hbreak Hcont b. remember (length b) as n eqn:Hn. revert b Hn.
  induction n as [n IH] using lt_wf_ind. intros b ->.
  destruct (loop_body rs b) as [|b' sent] eqn:E; [by apply Hbreak|].
  apply (Hcont b b' sent E). apply (IH (length b')); [|done].
  apply loop_body_shrinks in E. lia.
Qed.

Lemma drain_rest_breaks rs b : loop_body rs (snd (drain rs b)) = Break.
Proof.
  revert b. apply (drain_ind _ rs).
  - intros b E. by rewrite drain_unfold, E.
  - intros b b' sent E IH. rewrite drain_unfold, E.
    by destruct (drain rs b').
Qed.

Lemma drain_sent_parses rs b : Forall (fun m => JSON_parse m = true) (fst (drain rs b)).
Proof.
  revert b. apply (drain_ind _ rs).
  - intros b E. rewrite drain_unfold, E. constructor.
  - intros b b' sent E IH. rewrite drain_unfold, E.
    destruct (drain rs b'). simpl in *. apply Forall_app. split; [|done].
    by eapply loop_body_sent_parses.
Qed.

Lemma drain_readyState rs b :
  drain rs b = (if rs =? OPEN then fst (drain OPEN b) else [], snd (drain OPEN b)).
Proof.
  revert b. apply (drain_ind _ OPEN).
  - intros b E. rewrite !drain_unfold, loop_body_readyState, E.
    by destruct (rs =? OPEN).
  - intros b b' sent E IH.
    rewrite (drain_unfold _ rs), (drain_unfold _ OPEN), loop_body_readyState, E, IH.
    destruct (drain OPEN b'). simpl. by destruct (rs =? OPEN).
Qed.

Lemma drain_frames msgs :
  Forall (fun m => JSON_parse m = true) msgs ->
  drain OPEN (concat (map (fun m => frame_text (Z.of_nat (length m)) m) msgs)) = (msgs, []).
Proof.
  induction 1 as [|m msgs Hm _ IH]; cbn [map concat].
  - by apply drain_no_terminator.
  - by rewrite drain_frame, IH, Hm.
Qed.

Lemma ascii_app_inv s t : is_ascii (s ++ t) -> is_ascii s /\ is_ascii t.
Proof. apply Forall_app. Qed.

Lemma ascii_concat_inv ss : is_ascii (concat ss) -> Forall is_ascii ss.
Proof.
  induction ss as [|s ss IH]; simpl; [constructor|].
  intros [? ?]%ascii_app_inv. constructor; auto.
Qed.

Lemma encode_ascii_app a s : is_ascii a -> encode (a ++ s) = a ++ encode s.
Proof.
  induction 1 as [|u a Hu _ IH]; [done|].
  change ((u :: a) ++ s) with (u :: (a ++ s)). cbn [encode].
  unfold is_high_surrogate, is_low_surrogate, encode_code_point.
  replace (0xD800 <=? u) with false by lia. replace (0xDC00 <=? u) with false by lia.
  replace (u <? 0x80) with true by lia. simpl. by rewrite IH.
Qed.

(** X1.  Two chunks whose cut does not fall inside a character (the text
    of the whole is the text of the first followed by the text of the
    second) leave the session as the two fed as one chunk do: the same
    messages sent, the same buffer. *)
Theorem X1_cut_between_characters s d1 d2 :
  Utf8.toString (d1 ++ d2) = Utf8.toString d1 ++ Utf8.toString d2 ->
  stdout_on_data (stdout_on_data s d1) d2 = stdout_on_data s (d1 ++ d2).
Proof. apply stdout_on_data_app. Qed.

(** X2.  Any number of ASCII messages that [JSON.parse] accepts, each
    framed by the encoder, the frames concatenated and the bytes cut into
    chunks anywhere: a fresh decoder on an open socket sends exactly those
    messages, in order, and ends with an empty buffer. *)
Theorem X2_ascii_frames_any_chunking msgs d ds :
  Forall is_ascii msgs -> Forall (fun m => JSON_parse m = true) msgs ->
  d ++ concat ds = concat (map (fun m => Utf8.encode (lspMessage m)) msgs) ->
  stdout_on_chunks (connection OPEN) (d :: ds) = Session [] OPEN [] msgs.
Proof.
  intros Ha Hj Hcut.
  assert (map (fun m => Utf8.encode (lspMessage m)) msgs
          = map (fun m => frame_text (Z.of_nat (length m)) m) msgs) as Em.
  { apply map_ext_Forall. eapply Forall_impl; [exact Ha|]. cbv beta. intros m Hm.
    destruct (lspMessage_ascii m Hm) as [E Hf]. rewrite (encode_ascii _ Hf). exact E. }
  assert (is_ascii (concat (map (fun m => Utf8.encode (lspMessage m)) msgs))) as Hall.
  { apply ascii_concat, Forall_map. eapply Forall_impl; [exact Ha|]. cbv beta.
    intros m Hm. destruct (lspMessage_ascii m Hm) as [_ Hf]. by rewrite (encode_ascii _ Hf). }
  rewrite <- Hcut in Hall. destruct (ascii_app_inv _ _ Hall) as [Hd Hds].
  rewrite (stdout_on_chunks_ascii JSON_parse) by auto using ascii_concat_inv.
  unfold Proxy.stdout_on_data, connection. cbn [buffer readyState stdin ws_sent].
  rewrite toString_ascii, app_nil_l, Hcut, Em by done.
  by rewrite (drain_frames msgs Hj).
Qed.

(** X3.  A round sends a message only if the buffer holds the header, the
    blank line and as many code units as the header declares; the message is
    exactly those code units, and a round sends at most one. *)
Theorem X3_no_partial_emission rs b b' m sent :
  loop_body rs b = Continue b' (m :: sent) ->
  exists h ds,
    indexOf b CRLFCRLF = h /\ match_Content_Length (substring b 0 h) = Some ds /\
    h + 4 + parseInt ds <= Z.of_nat (length b) /\
    m = substring b (h + 4) (h + 4 + parseInt ds) /\
    Z.of_nat (length m) = parseInt ds /\ sent = [].
Proof. apply no_partial_emission. Qed.

(** X4.  The loop ends: a round that does not break takes at least four
    code units off the buffer, so a quarter as many rounds as the buffer is
    long, and one more, are never used up; capping the rounds at any such
    number does not change what the loop does. *)
Theorem X4_loop_ends rs b fuel :
  (length b / 4 < fuel)%nat ->
  Proxy.loop JSON_parse fuel rs b = drain rs b /\
  (forall b' sent, loop_body rs b = Continue b' sent -> (length b' + 4 <= length b)%nat).
Proof.
  intros H. split; [|apply loop_body_shrinks].
  revert b H. induction fuel as [|fuel IH]; intros b H; [lia|].
  rewrite drain_unfold. cbn [Proxy.loop].
  destruct (loop_body rs b) as [|b1 sent] eqn:E; [done|].
  apply loop_body_shrinks in E. rewrite IH; [done|].
  assert (length b1 / 4 + 1 <= length b / 4)%nat; [|lia].
  rewrite <- (Nat.div_add (length b1) 1 4) by lia.
  apply Nat.Div0.div_le_mono. lia.
Qed.

(** X5.  What the handler leaves in the buffer is the start of a unit,
    counted in code units: either it holds no header terminator, or its
    first header block names a length and fewer code units than that follow
    the terminator.  So an empty chunk arriving next changes nothing. *)
Theorem X5_buffer_left_is_incomplete s d :
  let rest := buffer (stdout_on_data s d) in
  (indexOf rest CRLFCRLF = -1 \/
   exists ds,
     match_Content_Length (substring rest 0 (indexOf rest CRLFCRLF)) = Some ds /\
     Z.of_nat (length rest) < indexOf rest CRLFCRLF + 4 + parseInt ds) /\
  stdout_on_data (stdout_on_data s d) [] = stdout_on_data s d.
Proof.
  intros rest.
  assert (loop_body (readyState s) rest = Break) as E.
  { unfold rest, Proxy.stdout_on_data.
    pose proof (drain_rest_breaks (readyState s) (buffer s ++ Utf8.toString d)) as H.
    by destruct (drain (readyState s) (buffer s ++ Utf8.toString d)). }
  split.
  - destruct (loop_body_cases JSON_parse (readyState s) rest)
      as [[Hn _]|(h & Eh & _ & _ & [[_ Hc]|(ds & Em & _ & [[Hlt _]|[_ Hc]])])];
      try congruence; [by left|].
    right. exists ds. by rewrite Eh.
  - unfold Proxy.stdout_on_data at 1. change (Utf8.toString []) with (@nil Z).
    rewrite app_nil_r, drain_unfold.
    assert (readyState (stdout_on_data s d) = readyState s) as Er.
    { unfold Proxy.stdout_on_data. by destruct (drain _ _). }
    fold rest. rewrite Er, E.
    unfold rest, Proxy.stdout_on_data. destruct (drain _ _). simpl. by rewrite app_nil_r.
Qed.

(** X6.  Whatever arrives, the handler only adds to the messages sent, and
    what it adds are bodies that [JSON.parse] accepted; it adds nothing
    unless the socket is open, and the buffer it leaves does not depend on
    the socket's state; stdin and the socket's state are not touched. *)
Theorem X6_only_parsed_bodies_are_sent s d :
  exists new,
    ws_sent (stdout_on_data s d) = ws_sent s ++ new /\
    Forall (fun m => JSON_parse m = true) new /\
    (readyState s <> OPEN -> new = []) /\
    buffer (stdout_on_data s d) = snd (drain OPEN (buffer s ++ Utf8.toString d)) /\
    stdin (stdout_on_data s d) = stdin s /\
    readyState (stdout_on_data s d) = readyState s.
Proof.
  unfold Proxy.stdout_on_data.
  pose proof (drain_sent_parses (readyState s) (buffer s ++ Utf8.toString d)) as Hp.
  pose proof (drain_readyState (readyState s) (buffer s ++ Utf8.toString d)) as Hr.
  destruct (drain (readyState s) (buffer s ++ Utf8.toString d)) as [new rest].
  exists new. simpl in *. injection Hr as Hn Hrest. repeat split; try done.
  intros Hne. rewrite Hn. destruct (Z.eqb_spec (readyState s) OPEN); done.
Qed.

(** X7.  On a buffer that starts with the header for [n] the round waits
    as long as fewer than [n] code units follow the blank line, and
    otherwise takes exactly the first [n] of them as the body and leaves
    the rest. *)
Theorem X7_body_is_n_code_units rs n text :
  0 <= n ->
  loop_body rs (frame_text n text) =
  if Z.of_nat (length text) <? n then Break
  else Continue (drop (Z.to_nat n) text)
         (if JSON_parse (take (Z.to_nat n) text)
          then if rs =? OPEN then [take (Z.to_nat n) text] else []
          else []).
Proof. apply loop_body_header. Qed.

(** X8.  What the message handler writes to stdin is the header, whose
    number is the count of the bytes of the body, the blank line, and those
    bytes: the declared length is always the length of what follows. *)
Theorem X8_frame_declares_its_byte_length s message :
  let body := Utf8.encode (Utf8.toString message) in
  stdin (ws_on_message s message) =
  stdin s ++ lit "Content-Length: " ++ Number_toString (Z.of_nat (length body))
    ++ CRLFCRLF ++ body.
Proof.
  cbv zeta. unfold ws_on_message, lspMessage. cbn [stdin]. f_equal.
  unfold byteLength.
  set (n := Z.of_nat (length (encode (toString message)))).
  destruct (Number_toString_spec n) as (_ & Hds & _); [lia|].
  rewrite !app_assoc. rewrite encode_ascii_app; [done|].
  repeat apply ascii_app; auto using ascii_Content_Length, ascii_CRLFCRLF, ascii_digits.
Qed.

End DecoderMore.

(** ** The child process and the end of the socket *)

Section LifecycleFacts.

Import Proxy Lifecycle.

Variable JSON_parse : list Z -> bool.

Local Abbreviation step := (Lifecycle.step JSON_parse).
Local Abbreviation run := (Lifecycle.run JSON_parse).

Lemma readyState_stdout_on_data s d :
  readyState (stdout_on_data JSON_parse s d) = readyState s.
Proof. unfold stdout_on_data. by destruct (drain _ _ _). Qed.

Lemma ws_sent_not_open s d :
  readyState s <> OPEN -> ws_sent (stdout_on_data JSON_parse s d) = ws_sent s.
Proof.
  intros Hne. unfold stdout_on_data. rewrite drain_readyState.
  destruct (Z.eqb_spec (readyState s) OPEN); [done|]. simpl. by rewrite app_nil_r.
Qed.

(** Once the socket is not open it never is again, and nothing more is
    sent on it. *)
Lemma step_not_open b e :
  readyState (wire b) <> OPEN ->
  readyState (wire (step b e)) <> OPEN /\
  ws_sent (wire (step b e)) = ws_sent (wire b) /\ closes (step b e) = closes b.
Proof.
  intros Hne. destruct e; simpl; try done.
  - by rewrite readyState_stdout_on_data, ws_sent_not_open.
  - unfold ls_on_error, close_if_open. by destruct (Z.eqb_spec (readyState (wire b)) OPEN).
  - unfold ls_on_exit, close_if_open. simpl.
    by destruct (Z.eqb_spec (readyState (wire b)) OPEN).
  - unfold ws_on_close, kill. simpl. by destruct (killed b), (running b).
Qed.

Lemma run_not_open b events :
  readyState (wire b) <> OPEN ->
  readyState (wire (run b events)) <> OPEN /\
  ws_sent (wire (run b events)) = ws_sent (wire b) /\ closes (run b events) = closes b.
Proof.
  revert b. induction events as [|e events IH]; intros b Hne; [done|].
  destruct (step_not_open b e Hne) as (H1 & H2 & H3).
  destruct (IH (step b e) H1) as (? & ? & ?).
  change (run b (e :: events)) with (run (step b e) events).
  repeat split; congruence.
Qed.

Lemma step_closes b e :
  closes b = O ->
  closes (step b e) = O \/ (closes (step b e) = 1%nat /\ readyState (wire (step b e)) <> OPEN).
Proof.
  intros H0. destruct e; simpl; auto.
  - unfold ls_on_error, close_if_open.
    destruct (readyState (wire b) =? OPEN); simpl; [right | left]; by rewrite ?H0.
  - unfold ls_on_exit, close_if_open. simpl.
    destruct (readyState (wire b) =? OPEN); simpl; [right | left]; by rewrite ?H0.
  - unfold ws_on_close, kill. simpl. left. by destruct (killed b), (running b).
Qed.

(** X9.  Whatever happens on a connection, the proxy calls [ws.close()] at
    most once. *)
Theorem X9_socket_closed_at_most_once events :
  (closes (run start events) <= 1)%nat.
Proof.
  assert (forall b, closes b = O -> (closes (run b events) <= 1)%nat) as H;
    [|by apply H].
  induction events as [|e events IH]; intros b H0; [simpl; lia|].
  change (run b (e :: events)) with (run (step b e) events).
  destruct (step_closes b e H0) as [H|[H Hne]].
  - by apply IH.
  - destruct (run_not_open (step b e) events Hne) as (_ & _ & E).
    rewrite E. lia.
Qed.

Lemma step_sigterms b e :
  (sigterms b = O \/ (sigterms b = 1%nat /\ killed b = true)) ->
  (sigterms (step b e) = O \/ (sigterms (step b e) = 1%nat /\ killed (step b e) = true)).
Proof.
  intros H. destruct e; simpl; try done.
  - unfold ls_on_error, close_if_open. by destruct (readyState (wire b) =? OPEN).
  - unfold ls_on_exit, close_if_open. simpl. by destruct (readyState (wire b) =? OPEN).
  - unfold ws_on_close, kill. simpl.
    destruct (killed b) eqn:Ek; simpl; [done|].
    destruct (running b); simpl; [|done].
    right. destruct H as [->|[_ ?]]; done.
Qed.

Lemma step_signalled b e :
  (running b = true -> killed b = true) ->
  (running (step b e) = true -> killed (step b e) = true).
Proof.
  intros H. destruct e; simpl; try done.
  - unfold ls_on_error, close_if_open. by destruct (readyState (wire b) =? OPEN).
  - unfold ls_on_exit, close_if_open. simpl. by destruct (readyState (wire b) =? OPEN).
  - unfold ws_on_close, kill. simpl. by destruct (killed b), (running b).
Qed.

(** X10.  Whatever happens on a connection, the child is sent SIGTERM at
    most once; and from the moment the browser's socket has closed, a
    child that still runs has been sent it. *)
Theorem X10_child_terminated_once before after :
  (sigterms (run start (before ++ Ws_close :: after)) <= 1)%nat /\
  (running (run start (before ++ Ws_close :: after)) = true ->
   killed (run start (before ++ Ws_close :: after)) = true).
Proof.
  split.
  - assert (forall events b,
              (sigterms b = O \/ (sigterms b = 1%nat /\ killed b = true)) ->
              (sigterms (run b events) <= 1)%nat) as H; [|apply H; by left].
    induction events as [|e events IH]; intros b Hb; [simpl; lia|].
    change (run b (e :: events)) with (run (step b e) events).
    apply IH. by apply step_sigterms.
  - unfold Lifecycle.run. rewrite fold_left_app. simpl.
    set (b := fold_left step before start).
    assert (running (ws_on_close b) = true -> killed (ws_on_close b) = true) as Hb.
    { unfold ws_on_close, kill. simpl. by destruct (killed b), (running b). }
    revert Hb. generalize (ws_on_close b). clear b.
    induction after as [|e after IH]; intros b Hb; [done|].
    simpl. apply IH. by apply step_signalled.
Qed.

(** X11.  Once the child has exited or failed, or the browser's socket has
    closed, nothing the child still writes is sent to the browser. *)
Theorem X11_nothing_sent_after_the_end b after :
  ws_sent (wire (run (step b Ls_exit) after)) = ws_sent (wire b) /\
  ws_sent (wire (run (step b Ls_error) after)) = ws_sent (wire b) /\
  ws_sent (wire (run (step b Ws_close) after)) = ws_sent (wire b).
Proof.
  assert (forall e, readyState (wire (step b e)) <> OPEN ->
                    ws_sent (wire (step b e)) = ws_sent (wire b) ->
                    ws_sent (wire (run (step b e) after)) = ws_sent (wire b)) as H.
  { intros e Hne Hs. by destruct (run_not_open (step b e) after Hne) as (_ & -> & _). }
  repeat split; apply H; simpl.
  - unfold ls_on_exit, close_if_open. simpl.
    by destruct (Z.eqb_spec (readyState (wire b)) OPEN).
  - unfold ls_on_exit, close_if_open. simpl.
    by destruct (Z.eqb_spec (readyState (wire b)) OPEN).
  - unfold ls_on_error, close_if_open.
    by destruct (Z.eqb_spec (readyState (wire b)) OPEN).
  - unfold ls_on_error, close_if_open.
    by destruct (Z.eqb_spec (readyState (wire b)) OPEN).
  - unfold ws_on_close, kill. simpl. by destruct (killed b), (running b).
  - unfold ws_on_close, kill. simpl. by destruct (killed b), (running b).
Qed.

End LifecycleFacts.

(** ** The test script's loop *)

Section TestScriptFacts.

Context {V : Type}.
Variable JSON_parse : list Z -> option V.
Variable JSON_stringify : V -> list Z.

(** What the script prints for a body. *)
Local Abbreviation print := (fun m : list Z => JSON_stringify <$> JSON_parse m).
Local Abbreviation accepts := (TestScript.accepts JSON_parse).

Lemma test_loop_body_proxy b :
  TestScript.loop_body JSON_parse JSON_stringify b =
  match Proxy.loop_body accepts Proxy.OPEN b with
  | Proxy.Break => TestScript.Break
  | Proxy.Continue b' sent => TestScript.Continue b' (omap print sent)
  end.
Proof.
  unfold Proxy.loop_body, TestScript.loop_body, TestScript.accepts. cbv zeta.
  destruct (_ =? -1); [done|]. destruct (Js.match_Content_Length _); [|done].
  destruct (_ <? _); [done|].
  destruct (JSON_parse _) as [parsed|] eqn:E; [|done].
  change (Proxy.OPEN =? Proxy.OPEN) with true. cbn [omap list_omap]. by rewrite E.
Qed.

Lemma test_loop_proxy fuel b :
  TestScript.loop JSON_parse JSON_stringify fuel b =
  (omap print (fst (Proxy.loop accepts fuel Proxy.OPEN b)),
   snd (Proxy.loop accepts fuel Proxy.OPEN b)).
Proof.
  revert b. induction fuel as [|fuel IH]; intros b; [done|].
  cbn [TestScript.loop Proxy.loop]. rewrite test_loop_body_proxy.
  destruct (Proxy.loop_body accepts Proxy.OPEN b) as [|b' sent]; [done|].
  rewrite IH. destruct (Proxy.loop accepts fuel Proxy.OPEN b') as [more rest].
  cbn [fst snd]. by rewrite omap_app.
Qed.

Lemma print_accepted sent :
  Forall (fun m => accepts m = true) sent -> length (omap print sent) = length sent.
Proof.
  induction 1 as [|m sent Hm _ IH]; [done|]. cbn [omap list_omap].
  unfold TestScript.accepts in Hm. destruct (JSON_parse m); [|done].
  simpl. by rewrite IH.
Qed.

(** X12.  The test script's copy of the loop and the proxy's agree, the
    proxy's socket being open: on the same buffer and the same data the
    script parses exactly the bodies the proxy sends, prints for each of
    them, in the same order, what [JSON.stringify] makes of its parsed
    value, and leaves the same buffer. *)
Theorem X12_test_script_decodes_as_the_proxy buffer data :
  let s := Proxy.stdout_on_data accepts (Proxy.Session buffer Proxy.OPEN [] []) data in
  TestScript.stdout_on_data JSON_parse JSON_stringify buffer data
  = (omap print (Proxy.ws_sent s), Proxy.buffer s) /\
  length (fst (TestScript.stdout_on_data JSON_parse JSON_stringify buffer data))
  = length (Proxy.ws_sent s).
Proof.
  cbv zeta.
  assert (TestScript.stdout_on_data JSON_parse JSON_stringify buffer data
          = (omap print (fst (Proxy.drain accepts Proxy.OPEN (buffer ++ Utf8.toString data))),
             snd (Proxy.drain accepts Proxy.OPEN (buffer ++ Utf8.toString data)))) as E.
  { unfold TestScript.stdout_on_data, Proxy.drain. cbv zeta. apply test_loop_proxy. }
  pose proof (drain_sent_parses accepts Proxy.OPEN (buffer ++ Utf8.toString data)) as Hs.
  unfold Proxy.stdout_on_data. cbn [Proxy.buffer Proxy.readyState Proxy.stdin Proxy.ws_sent].
  rewrite E. destruct (Proxy.drain _ _ _) as [sent rest].
  cbn [fst snd Proxy.buffer Proxy.ws_sent app] in *.
  split; [done|]. by apply print_accepted.
Qed.

End TestScriptFacts.

(** ** The client: what becomes of every request *)

Section ClientMore.

Import Client Usage.

(** X13.  In no state of a connection has a request been settled twice:
    for every id the promise's [resolve] and [reject] were called at most
    once, taken together. *)
Theorem X13_settled_at_most_once before after i :
  (length (settlements i (settled (session before after))) <= 1)%nat.
Proof. apply inv_once, Inv_session. Qed.

(** X14.  In every state of a connection a pending request has been sent
    (its id is among the ids sent), has its timeout set and has not been
    settled. *)
Theorem X14_pending_requests_wait before after i w :
  pendingRequests (session before after) !! i = Some w ->
  i ∈ request_ids (sent (session before after)) /\
  is_Some (timers (session before after) !! i) /\
  settlements i (settled (session before after)) = [].
Proof.
  intros Hp. pose proof (Inv_session before after) as HI.
  destruct (inv_pending _ HI i w Hp) as [Hi [m Hm]].
  destruct (inv_timers _ HI i m Hm) as [_ Hs].
  split; [|split; [by exists m | done]].
  rewrite (inv_ids _ HI). apply elem_of_seqZ. lia.
Qed.

Lemma accounted_same c c' :
  messageId c' = messageId c -> pendingRequests c' = pendingRequests c ->
  settled c' = settled c -> accounted c -> accounted c'.
Proof. intros E1 E2 E3 H i. rewrite E1, E2, E3. apply H. Qed.

Lemma accounted_settled c c' n s :
  Inv c -> is_Some (pendingRequests c !! n) ->
  messageId c' = messageId c -> pendingRequests c' = delete n (pendingRequests c) ->
  settled c' = settled c ++ [(n, s)] -> accounted c -> accounted c'.
Proof.
  intros HI [w Hw] E1 E2 E3 H i. rewrite E1, E2, E3. intros Hi.
  rewrite settlements_snoc, lookup_delete. case_decide as Hd.
  - subst i. right. split; [done|].
    destruct (inv_pending c HI n w Hw) as [_ [m Hm]].
    destruct (inv_timers c HI n m Hm) as [_ ->]. done.
  - rewrite app_nil_r. by apply H.
Qed.

Lemma accounted_step c e :
  Inv c -> is_disconnect e = false -> accounted c -> accounted (step c e).
Proof.
  intros HI He H.
  assert (forall m params w, accounted (fst (sendRequest c m params w))) as Hsend.
  { intros m params w.
    destruct (sendRequest_cases c m params w)
      as [[_ ->]|(_ & _ & Em & Ep & _ & _ & Es & _)]; [done|].
    intros i. rewrite Em, Ep, Es. intros Hi.
    rewrite lookup_insert. case_decide as Hd.
    - subst i. left. split; [done|].
      destruct (settlements (messageId c + 1) (settled c)) eqn:E; [done|].
      assert (1 <= messageId c + 1 <= messageId c); [|lia].
      apply (inv_settled c HI). by rewrite E.
    - apply H. lia. }
  assert (forall m params, accounted (sendNotification c m params)) as Hnote.
  { intros. unfold sendNotification. by destruct (negb (ws_open c)). }
  destruct e as [ | | | ? ? ? | ? | ? ? ? ? | ? ? ? | | | | message | | n ];
    simpl in *; try done; try apply Hsend; try apply Hnote.
  - unfold initialize. destruct (isInitialized c); [done | apply Hsend].
  - destruct (ws c) as [[]|]; try done. unfold onopen, notify_status. simpl.
    by destruct (connectionStatusHandler c).
  - unfold onerror, notify_status. by destruct (connectionStatusHandler c).
  - destruct (ws_open c); [|done].
    destruct (onmessage_cases c message)
      as [(n & w & _ & Hn & Ep & _ & Es & Em & _)|(_ & Ep & _ & Es & Em & _)].
    + by eapply (accounted_settled c _ n); eauto.
    + by eapply accounted_same.
  - unfold onclose, notify_status. simpl. by destruct (connectionStatusHandler c).
  - destruct (on_timeout_cases c n)
      as [[_ ->]|[(m & w & _ & Hn & Ep & _ & Es & Em)|(_ & Ep & _ & Es & Em)]]; [done| |].
    + by eapply (accounted_settled c _ n); eauto.
    + by eapply accounted_same.
Qed.

Lemma accounted_run c events :
  Inv c -> forallb (fun e => negb (is_disconnect e)) events = true ->
  accounted c -> accounted (run c events).
Proof.
  revert c. induction events as [|e events IH]; intros c HI Hq H; [done|].
  simpl in Hq. apply andb_true_iff in Hq as [He Hq]. apply negb_true_iff in He.
  apply IH; [by apply Inv_step | done | by apply accounted_step].
Qed.

(** X15.  As long as [disconnect()] is not called, no request is lost:
    in every state every request sent so far is either still pending and
    unsettled, or no longer pending and settled exactly once. *)
Theorem X15_no_request_lost before after i :
  forallb (fun e => negb (is_disconnect e)) (before ++ after) = true ->
  1 <= i <= messageId (session before after) ->
  (is_Some (pendingRequests (session before after) !! i) /\
   settlements i (settled (session before after)) = []) \/
  (pendingRequests (session before after) !! i = None /\
   length (settlements i (settled (session before after))) = 1%nat).
Proof.
  rewrite forallb_app. intros [Hb Ha]%andb_true_iff.
  assert (accounted (session before after)) as H; [|apply H].
  unfold session. apply accounted_run; [apply Inv_connect, Inv_run, Inv_new_client | done |].
  apply (accounted_same (run new_client before)); try done.
  apply accounted_run; [apply Inv_new_client | done |].
  intros j Hj. simpl in Hj. lia.
Qed.

(** X16.  A response that answers a pending request clears its timeout:
    when the timeout's time comes, nothing happens. *)
Theorem X16_response_clears_the_timeout c message n w :
  id message = Some (Num n) -> pendingRequests c !! n = Some w ->
  timers (onmessage c message) !! n = None /\
  step (onmessage c message) (Timeout n) = onmessage c message.
Proof.
  intros Hid Hp.
  destruct (onmessage_cases c message)
    as [(n' & w' & Hid' & _ & _ & Et & _)|(Hnone & _)].
  - assert (n' = n) as -> by congruence.
    assert (timers (onmessage c message) !! n = None) as E.
    { rewrite Et. apply lookup_delete_eq. }
    split; [done|]. simpl. unfold on_timeout. by rewrite E.
  - unfold pending_entry in Hnone. by rewrite Hid, Hp in Hnone.
Qed.

(** X17.  A response that comes a second time is ignored: after a message
    has answered a pending request, the same message again changes
    nothing. *)
Theorem X17_duplicate_response_ignored c message n w :
  id message = Some (Num n) -> pendingRequests c !! n = Some w ->
  method message = None ->
  onmessage (onmessage c message) message = onmessage c message.
Proof.
  intros Hid Hp Hm.
  destruct (onmessage_cases c message)
    as [(n' & w' & Hid' & _ & Ep & _)|(Hnone & _)].
  - assert (n' = n) as -> by congruence.
    unfold onmessage at 1. unfold handleMessage, pending_entry.
    rewrite Hid, Ep, lookup_delete_eq, Hm. simpl. done.
  - unfold pending_entry in Hnone. by rewrite Hid, Hp in Hnone.
Qed.

(** X18.  Once the socket has closed or [disconnect()] was called, the
    client never sends again on this connection: whatever is called and
    whatever happens, nothing goes through [ws.send], no id is taken, and
    every request gets a promise rejected with "WebSocket not connected". *)
Theorem X18_a_closed_client_stays_silent c events method params w :
  (sent (run (step c Ws_close) events) = sent c /\
   messageId (run (step c Ws_close) events) = messageId c /\
   snd (sendRequest (run (step c Ws_close) events) method params w)
   = Settled (Rejected "WebSocket not connected")) /\
  (sent (run (step c Call_disconnect) events) = sent c /\
   messageId (run (step c Call_disconnect) events) = messageId c /\
   snd (sendRequest (run (step c Call_disconnect) events) method params w)
   = Settled (Rejected "WebSocket not connected")).
Proof.
  assert (forall e, closed (step c e) -> sent (step c e) = sent c ->
                    messageId (step c e) = messageId c ->
                    sent (run (step c e) events) = sent c /\
                    messageId (run (step c e) events) = messageId c /\
                    snd (sendRequest (run (step c e) events) method params w)
                    = Settled (Rejected "WebSocket not connected")) as H.
  { intros e Hc Es Em.
    destruct (run_closed (step c e) events Hc) as ([Hopen _] & -> & ->).
    repeat split; try done. unfold sendRequest. by rewrite Hopen. }
  split; apply H; simpl; unfold closed, ws_open.
  - unfold onclose, notify_status. simpl.
    destruct (connectionStatusHandler c); simpl; by destruct (ws c).
  - unfold onclose, notify_status. simpl. by destruct (connectionStatusHandler c).
  - unfold onclose, notify_status. simpl. by destruct (connectionStatusHandler c).
  - unfold disconnect. destruct (ws c) eqn:E; simpl; rewrite ?E; done.
  - unfold disconnect. by destruct (ws c).
  - unfold disconnect. by destruct (ws c).
Qed.

(** X19.  The requests that [disconnect()] finds pending are given up:
    whatever happens afterwards, their promises are never resolved nor
    rejected. *)
Theorem X19_disconnect_gives_up_pending_requests before after later i w :
  pendingRequests (session before after) !! i = Some w ->
  settlements i (settled (run (disconnect (session before after)) later)) = [].
Proof.
  intros Hp. apply disconnect_abandons_pending; [apply Inv_session | eauto].
Qed.

(** X20.  A handshake that fails leaves the client as it was but for the
    request: when the [initialize] request is answered with an error, or
    its timeout fires, nothing is sent, the client stays uninitialized and
    the request is rejected. *)
Theorem X20_failed_handshake c i msg result method :
  pendingRequests c !! i = Some AwaitedByInitialize ->
  timers c !! i = Some method ->
  (sent (onmessage c (response i (Some msg) result)) = sent c /\
   isInitialized (onmessage c (response i (Some msg) result)) = isInitialized c /\
   settled (onmessage c (response i (Some msg) result)) = settled c ++ [(i, Rejected msg)]) /\
  (sent (on_timeout c i) = sent c /\
   isInitialized (on_timeout c i) = isInitialized c /\
   settled (on_timeout c i) = settled c ++ [(i, Rejected (timeout_message method i))]).
Proof.
  intros Hp Ht. split.
  - unfold onmessage, handleMessage, pending_entry. simpl. by rewrite Hp.
  - unfold on_timeout. rewrite Ht. simpl. by rewrite Hp.
Qed.

(** X21.  [initialize()] does not know of a call that is still waiting: a
    second call made before the first is answered sends a second
    [initialize] request, with the next id. *)
Theorem X21_initialize_while_waiting c :
  isInitialized c = false -> ws c = Some OPEN ->
  sent (fst (initialize (fst (initialize c))))
  = sent c ++ [Request (messageId c + 1) "initialize" initialize_params;
               Request (messageId c + 2) "initialize" initialize_params].
Proof.
  intros Hinit Hws.
  assert (initialize c = sendRequest c "initialize" initialize_params AwaitedByInitialize)
    as -> by (unfold initialize; by rewrite Hinit).
  destruct (sendRequest_cases c "initialize" initialize_params AwaitedByInitialize)
    as [[Hc _]|(_ & _ & Em & _ & _ & Es & _ & Ews & Ei)].
  { unfold ws_open in Hc. by rewrite Hws in Hc. }
  set (c1 := fst (sendRequest c "initialize" initialize_params AwaitedByInitialize)) in *.
  assert (initialize c1 = sendRequest c1 "initialize" initialize_params AwaitedByInitialize)
    as -> by (unfold initialize; by rewrite Ei, Hinit).
  destruct (sendRequest_cases c1 "initialize" initialize_params AwaitedByInitialize)
    as [[Hc _]|(_ & _ & _ & _ & _ & -> & _)].
  { unfold ws_open in Hc. by rewrite Ews, Hws in Hc. }
  rewrite Es, Em, <- app_assoc. simpl.
  by replace (messageId c + 1 + 1) with (messageId c + 2) by lia.
Qed.



Lemma connectToLSP_handshake serverCapabilities :
  let c5 :=
    setDiagnosticsHandler
      (step (fst (initialize (step (connect (setConnectionStatusHandler new_client)) Ws_open)))
         (Ws_message
            (response
               (messageId
                  (fst (initialize
                          (step (connect (setConnectionStatusHandler new_client)) Ws_open))))
               None serverCapabilities))) in
  sent c5 = [Request 1 "initialize" initialize_params;
             Notification "initialized" (Object [])] /\
  settled c5 = [(1, Resolved serverCapabilities)] /\
  pendingRequests c5 = ∅ /\ isInitialized c5 = true /\
  diagnosticsHandler c5 = true /\ ws_open c5 = true.
Proof. vm_compute. done. Qed.


Lemma semanticTokensLegend_throws serverCapabilities :
  property serverCapabilities "capabilities" = None \/
  property serverCapabilities "capabilities" = Some Undefined \/
  property serverCapabilities "capabilities" = Some Null ->
  semanticTokensLegend serverCapabilities = None.
Proof. unfold semanticTokensLegend. by intros [->|[->| ->]]. Qed.


(** X30.  When the server's answer to [initialize] has no capabilities
    (the result is [null] or [undefined], or its [capabilities] are missing
    or [null]), reading the legend throws after the handshake: the
    [initialize] request and the [initialized] notification have been sent,
    the client is initialized and the diagnostics handler is set, but no
    document is opened. *)
Theorem X30_no_capabilities_no_documents models serverCapabilities :
  property serverCapabilities "capabilities" = None \/
  property serverCapabilities "capabilities" = Some Undefined \/
  property serverCapabilities "capabilities" = Some Null ->
  let c := connectToLSP models serverCapabilities in
  sent c = [Request 1 "initialize" initialize_params;
            Notification "initialized" (Object [])] /\
  settled c = [(1, Resolved serverCapabilities)] /\
  pendingRequests c = ∅ /\ isInitialized c = true /\ diagnosticsHandler c = true.
Proof.
  intros H. cbv zeta. unfold connectToLSP. cbv zeta.
  rewrite (semanticTokensLegend_throws _ H).
  destruct (connectToLSP_handshake serverCapabilities) as (E1 & E2 & E3 & E4 & E5 & _).
  done.
Qed.

End ClientMore.

(** ** The problems list, once more *)

Section DiagnosticsMore.

Import Editor.

(** X23.  Of two publishes for the same document the later one wins,
    entry for entry: the list is what it would be had the earlier one never
    come; in particular publishing the same set twice is publishing it
    once. *)
Theorem X23_later_publish_wins u ds1 ds2 prev :
  publishDiagnostics u ds2 (publishDiagnostics u ds1 prev) = publishDiagnostics u ds2 prev.
Proof.
  unfold publishDiagnostics. f_equal. rewrite filter_app, list_filter_filter.
  rewrite (filter_none _ (map _ _)).
  - rewrite app_nil_r. apply list_filter_iff. tauto.
  - eapply Forall_impl; [apply newErrors_uri|]. simpl. tauto.
Qed.

(** X24.  A publish for one document leaves the entries of every other
    document as they were, in their order. *)
Theorem X24_other_documents_untouched u v ds prev :
  u <> v ->
  filter (fun error => uri error = v) (publishDiagnostics u ds prev)
  = filter (fun error => uri error = v) prev.
Proof. apply publishDiagnostics_other. Qed.

(** X25.  With any number of documents: after any sequence of publishes
    the entries of a document are those of the set last published for it
    (none if there was no publish for it), and every entry belongs to a
    document that had a publish. *)
Theorem X25_latest_publish_per_document u ps :
  filter (fun error => uri error = u) (currentErrors_after [] ps)
    = map (newError u) (latest u ps) /\
  Forall (fun error => exists p, p ∈ ps /\ uri error = fst p) (currentErrors_after [] ps).
Proof. split; [apply currentErrors_by_uri | apply currentErrors_uris]. Qed.

End DiagnosticsMore.

(** ** Markers, the hover fallback and the file tabs *)

Section UiFacts.

Import Ui.

Lemma find_id_Some files fileId f :
  find_id files fileId = Some f -> f ∈ files /\ id f = fileId.
Proof.
  intros [Hin E]%find_some. split; [by apply list_elem_of_In|].
  by apply String.eqb_eq.
Qed.

Lemma find_uri_Some files u f :
  find_uri files u = Some f -> f ∈ files /\ uri f = u.
Proof.
  intros [Hin E]%find_some. split; [by apply list_elem_of_In|].
  by apply String.eqb_eq.
Qed.

Lemma has_model_elem ms u : has_model ms u = true <-> u ∈ ms.
Proof.
  unfold has_model. rewrite existsb_exists. split.
  - intros (v & Hin & ->%String.eqb_eq). by apply list_elem_of_In.
  - intros Hin. exists u. split; [by apply list_elem_of_In | apply String.eqb_refl].
Qed.

Lemma NoDup_map_eq {A B} (g : A -> B) (l : list A) x y :
  NoDup (map g l) -> x ∈ l -> y ∈ l -> g x = g y -> x = y.
Proof.
  induction l as [|a l IH]; simpl; [by intros _ ?%elem_of_nil|].
  intros [Ha Hl]%NoDup_cons
         [ -> |Hx]%elem_of_cons [ -> |Hy]%elem_of_cons E; auto.
  - exfalso. apply Ha. rewrite E. by apply (list_elem_of_fmap_2 g).
  - exfalso. apply Ha. rewrite <- E. by apply (list_elem_of_fmap_2 g).
Qed.

Lemma NoDup_map_filter {A B} (g : A -> B) (P : A -> Prop)
    `{!forall x, Decision (P x)} (l : list A) :
  NoDup (map g l) -> NoDup (map g (filter P l)).
Proof.
  induction l as [|a l IH]; simpl; [done|].
  intros [Ha Hl]%NoDup_cons. rewrite filter_cons. destruct (decide (P a)).
  - simpl. apply NoDup_cons. split; [|by apply IH].
    intros (x & E & [_ Hx]%list_elem_of_filter)%(list_elem_of_fmap_1 g).
    apply Ha. rewrite E. by apply (list_elem_of_fmap_2 g).
  - by apply IH.
Qed.

Lemma find_id_unique files f :
  NoDup (map id files) -> f ∈ files -> find_id files (id f) = Some f.
Proof.
  intros Hnd Hin. destruct (find_id files (id f)) as [f'|] eqn:E.
  - apply find_id_Some in E as [Hin' E]. f_equal.
    by apply (NoDup_map_eq id files).
  - exfalso. apply list_elem_of_In in Hin.
    pose proof (find_none _ _ E f Hin) as Hf. simpl in Hf.
    by rewrite String.eqb_refl in Hf.
Qed.

Lemma in_order_switchToFile s fileId : in_order s -> in_order (switchToFile s fileId).
Proof.
  intros HI. pose proof HI as [H1 H2 H3 H4 (fa & e & Hfa & Ea & Ee & Es)].
  unfold switchToFile, switchToFile_with.
  destruct (find_id (openFiles s) fileId) as [file|] eqn:Ef; [|done].
  apply find_id_Some in Ef as [Hin Eid]. rewrite Ee, (H4 file Hin).
  split; simpl; try done. by exists file, {| shown := Some (uri file); cursor := cursor e |}.
Qed.

Lemma in_order_closeFile s fileId : in_order s -> in_order (closeFile s fileId).
Proof.
  intros HI. pose proof HI as [H1 H2 H3 H4 (fa & e & Hfa & Ea & Ee & Es)].
  unfold closeFile.
  destruct (length (openFiles s) <=? 1)%nat eqn:El; [done|].
  apply Nat.leb_gt in El.
  destruct (find_id (openFiles s) fileId) as [ftc|] eqn:Ef; [|done].
  apply find_id_Some in Ef as [Hin Eid]. rewrite (H4 ftc Hin).
  set (newFiles := filter (fun f => id f <> fileId) (openFiles s)).
  assert (forall f, f ∈ newFiles -> f ∈ openFiles s /\ uri f <> uri ftc) as Hnew.
  { intros f [Hid Hf]%list_elem_of_filter. split; [done|].
    intros E. apply Hid. rewrite <- Eid. f_equal. by apply (NoDup_map_eq uri (openFiles s)). }
  assert (forall f, f ∈ newFiles ->
            has_model (filter (fun v => v <> uri ftc) (models s)) (uri f) = true) as Hmod.
  { intros f Hf. destruct (Hnew f Hf) as [Hf' Hne].
    apply has_model_elem, list_elem_of_filter. split; [done|].
    by apply has_model_elem, H4. }
  assert (newFiles <> []) as Hne.
  { destruct (openFiles s) as [|a [|b rest]] eqn:Eo; simpl in El; try lia.
    assert (id a <> id b) as Hab.
    { simpl in H1. apply NoDup_cons in H1 as [Ha _]. intros E. apply Ha. rewrite E. by left. }
    assert (a ∈ newFiles \/ b ∈ newFiles) as [Hx|Hx]; [|by intros E; rewrite E in Hx; apply elem_of_nil in Hx..].
    destruct (decide (id a = fileId)) as [Ea'|Ea'].
    - right. apply list_elem_of_filter. split; [congruence | right; by left].
    - left. apply list_elem_of_filter. split; [done | by left]. }
  assert (NoDup (map id newFiles) /\ NoDup (map uri newFiles)) as [Hn1 Hn2]
    by (split; by apply NoDup_map_filter).
  destruct (String.eqb_spec fileId (activeFileId s)) as [Eact|Eact].
  - destruct newFiles as [|naf rest] eqn:En; [done|].
    assert (naf ∈ naf :: rest) as Hnaf by (by left).
    destruct (Hnew naf Hnaf) as [Hnaf' Hnafne].
    unfold switchToFile_with. rewrite (find_id_unique _ naf H1 Hnaf'). simpl. rewrite Ee.
    rewrite (Hmod naf Hnaf).
    split; simpl; try done.
    eexists naf, _. split; [by left|]. done.
  - assert (fa ∈ newFiles) as Hfa'.
    { apply list_elem_of_filter. split; [congruence | done]. }
    destruct (Hnew fa Hfa') as [_ Hfane].
    split; simpl; try done.
    rewrite Ee. eexists fa, _. split; [done|]. split; [done|]. split; [done|].
    simpl. rewrite Es. by destruct (String.eqb_spec (uri fa) (uri ftc)).
Qed.

Lemma in_order_jumpToError s line column u : in_order s -> in_order (jumpToError s line column u).
Proof.
  intros HI. unfold jumpToError.
  set (s1 := match find_uri (openFiles s) u with
             | Some file =>
                 if negb (String.eqb (id file) (activeFileId s))
                 then switchToFile s (id file) else s
             | None => s
             end).
  assert (in_order s1) as [H1 H2 H3 H4 (fa & e & Hfa & Ea & Ee & Es)].
  { unfold s1. destruct (find_uri _ _); [|done].
    destruct (negb _); [by apply in_order_switchToFile | done]. }
  rewrite Ee. split; simpl; try done.
  by eexists fa, _.
Qed.

Lemma in_order_act s a : in_order s -> in_order (act s a).
Proof.
  destruct a; simpl.
  - apply in_order_switchToFile.
  - apply in_order_closeFile.
  - apply in_order_jumpToError.
  - by intros [].
Qed.

Lemma in_order_mounted : in_order mounted.
Proof.
  split; cbn -[String.eqb].
  - repeat (apply NoDup_cons; split; [rewrite ?elem_of_cons, elem_of_nil; intros H; intuition discriminate|]).
    apply NoDup_nil_2.
  - repeat (apply NoDup_cons; split; [rewrite ?elem_of_cons, elem_of_nil; intros H; intuition discriminate|]).
    apply NoDup_nil_2.
  - done.
  - intros f [ -> |[ -> |H%elem_of_nil]%elem_of_cons]%elem_of_cons; done.
  - eexists _, _. split; [by left|]. done.
Qed.

Lemma filter_drops_one {A} (g : A -> string) (l : list A) x :
  NoDup (map g l) -> x ∈ l -> S (length (filter (fun y => g y <> g x) l)) = length l.
Proof.
  induction l as [|a l IH]; simpl; [by intros _ ?%elem_of_nil|].
  intros [Ha Hl]%NoDup_cons Hx. rewrite filter_cons.
  destruct (decide (g a <> g x)) as [Hne|He].
  - simpl. f_equal. apply IH; [done|].
    apply elem_of_cons in Hx as [ -> |Hx]; done.
  - f_equal. f_equal. apply filter_all. apply Forall_forall. intros y Hy E.
    apply Ha. assert (g a = g x) as -> by (by destruct (decide (g a = g x)); [|exfalso; apply He]).
    rewrite <- E. by apply (list_elem_of_fmap_2 g).
Qed.

(** X26.  Whatever the user does with the tabs and the problems list and
    whatever the server publishes, the tabs stay in order: a file is open,
    the active file is one of the open files, the editor shows its model,
    and every open file has a model. *)
Theorem X26_tabs_stay_in_order s actions : in_order s -> in_order (acts s actions).
Proof.
  revert s. induction actions as [|a actions IH]; intros s H; [done|].
  apply IH. by apply in_order_act.
Qed.

(** X27.  Closing one of several open files, the tabs being in order:
    the file leaves the list and nothing else does, its model is disposed,
    the problems list loses the entries of its document and keeps the rest;
    if it was not the active file the editor is left alone, and if it was,
    the first file that remains becomes active and is shown. *)
Theorem X27_closing_a_file s f :
  in_order s -> f ∈ openFiles s -> (2 <= length (openFiles s))%nat ->
  let s' := closeFile s (id f) in
  openFiles s' = filter (fun g => id g <> id f) (openFiles s) /\
  S (length (openFiles s')) = length (openFiles s) /\
  (f ∉ openFiles s') /\
  (uri f ∉ models s') /\
  currentErrors s'
    = filter (fun error => Editor.uri error <> uri f) (currentErrors s) /\
  (id f <> activeFileId s ->
     activeFileId s' = activeFileId s /\ editorRef s' = editorRef s) /\
  (id f = activeFileId s ->
     exists g e, head (openFiles s') = Some g /\ activeFileId s' = id g /\
                 editorRef s' = Some e /\ shown e = Some (uri g)).
Proof.
  intros HI Hf Hlen. pose proof (in_order_closeFile s (id f) HI) as HI'.
  destruct HI as [H1 H2 H3 H4 (fa & e & Hfa & Ea & Ee & Es)].
  revert HI'. unfold closeFile.
  rewrite (proj2 (Nat.leb_gt _ _)) by lia.
  rewrite (find_id_unique _ f H1 Hf), (H4 f Hf).
  set (newFiles := filter (fun g => id g <> id f) (openFiles s)).
  assert (f ∉ newFiles) as Hout by (by intros [Hid _]%list_elem_of_filter).
  assert (S (length newFiles) = length (openFiles s)) as Hl
    by (by apply filter_drops_one).
  assert (uri f ∉ filter (fun v => v <> uri f) (models s)) as Hm
    by (by intros [Hid _]%list_elem_of_filter).
  destruct (String.eqb_spec (id f) (activeFileId s)) as [Eact|Eact].
  - destruct newFiles as [|naf rest] eqn:En; [simpl in Hl; lia|].
    assert (naf ∈ openFiles s /\ id naf <> id f) as [Hnaf Hnid].
    { assert (naf ∈ filter (fun g => id g <> id f) (openFiles s)) as Hx
        by (fold newFiles; rewrite En; by left).
      apply list_elem_of_filter in Hx. tauto. }
    assert (uri naf <> uri f) as Hnu.
    { intros E. apply Hnid. f_equal. by apply (NoDup_map_eq uri (openFiles s)). }
    unfold switchToFile_with. rewrite (find_id_unique _ naf H1 Hnaf). simpl. rewrite Ee.
    assert (has_model (filter (fun v => v <> uri f) (models s)) (uri naf) = true) as ->.
    { apply has_model_elem, list_elem_of_filter. split; [done|]. by apply has_model_elem, H4. }
    intros _. simpl. do 5 (split; [done|]). split; [done|].
    intros _. by eexists naf, _.
  - intros _. simpl. do 5 (split; [done|]). split; [|done].
    intros _. split; [done|]. rewrite Ee. f_equal.
    assert (uri fa <> uri f) as Hne.
    { intros E. apply Eact. rewrite <- Ea. f_equal. symmetry.
      by apply (NoDup_map_eq uri (openFiles s)). }
    destruct e as [sh cu]. simpl in *. subst sh.
    by destruct (String.eqb_spec (uri fa) (uri f)).
Qed.

(** X28.  The hover fallback, the model's markers being those built from
    the diagnostics [ds]: it answers exactly when the position asked about
    lies in the box of a diagnostic, its line between the lines of the range
    and its character between the characters of the range, ends included;
    the answer then names the source and the message of such a diagnostic
    and carries its range, counted from 1. *)
Theorem X28_hover_fallback ds position :
  let p := hover_position position in
  let boxed (d : Lsp.Diagnostic) :=
    Lsp.line (Lsp.start (Lsp.range d)) <= Lsp.line p <= Lsp.line (Lsp.end_ (Lsp.range d)) /\
    Lsp.character (Lsp.start (Lsp.range d)) <= Lsp.character p
      <= Lsp.character (Lsp.end_ (Lsp.range d)) in
  match hover_fallback (map toMarker ds) position with
  | Some h =>
      exists d, d ∈ ds /\ boxed d /\
        contents h = [("**SysIDE**: " ++ Lsp.message d)%string] /\
        hover_range h = (Lsp.line (Lsp.start (Lsp.range d)) + 1,
                         Lsp.character (Lsp.start (Lsp.range d)) + 1,
                         Lsp.line (Lsp.end_ (Lsp.range d)) + 1,
                         Lsp.character (Lsp.end_ (Lsp.range d)) + 1)
  | None => forall d, d ∈ ds -> ~ boxed d
  end.
Proof.
  intros p boxed. unfold hover_fallback.
  assert (forall d, hit position (toMarker d) = true <-> boxed d) as Hhit.
  { intros d. unfold hit, boxed, p, hover_position. simpl.
    rewrite !andb_true_iff, !Z.leb_le. lia. }
  destruct (find _ _) as [m|] eqn:E.
  - apply find_some in E as [(d & <- & Hd)%in_map_iff Hm].
    exists d. split; [by apply list_elem_of_In|]. split; [by apply Hhit|]. done.
  - intros d Hd Hb. apply Hhit in Hb.
    pose proof (find_none _ _ E (toMarker d)) as Hn. simpl in Hn.
    rewrite Hn in Hb; [done|]. apply in_map. by apply list_elem_of_In.
Qed.

(** X29.  Clicking an entry of the problems list, the tabs being in
    order and the entry's file open: the file becomes (or stays) the active
    one, the editor shows its model, and the cursor is put where the marker
    of the same diagnostic starts; the files and the problems list are as
    they were. *)
Theorem X29_jump_to_a_problem s f d :
  in_order s -> f ∈ openFiles s ->
  let entry := Editor.newError (uri f) d in
  let s' := jumpToError s (Editor.line entry) (Editor.column entry) (Editor.uri entry) in
  activeFileId s' = id f /\
  editorRef s'
    = Some {| shown := Some (uri f);
              cursor := Some {| lineNumber := startLineNumber (toMarker d);
                                column := startColumn (toMarker d) |} |} /\
  openFiles s' = openFiles s /\
  currentErrors s' = currentErrors s.
Proof.
  intros [H1 H2 H3 H4 (fa & e & Hfa & Ea & Ee & Es)] Hf. simpl.
  unfold jumpToError.
  assert (find_uri (openFiles s) (uri f) = Some f) as ->.
  { destruct (find_uri _ _) as [f'|] eqn:E.
    - apply find_uri_Some in E as [Hin' E]. f_equal.
      by apply (NoDup_map_eq uri (openFiles s)).
    - exfalso. apply list_elem_of_In in Hf.
      pose proof (find_none _ _ E f Hf) as Hn. simpl in Hn.
      by rewrite String.eqb_refl in Hn. }
  destruct (String.eqb_spec (id f) (activeFileId s)) as [Eact|Eact]; simpl.
  - rewrite Ee. simpl. split; [done|]. split; [|done].
    assert (fa = f) as -> by (apply (NoDup_map_eq id (openFiles s)); congruence).
    by rewrite Es.
  - unfold switchToFile, switchToFile_with.
    rewrite (find_id_unique _ f H1 Hf), Ee, (H4 f Hf). done.
Qed.

End UiFacts.

(** ** The further properties at sample inputs *)

(** X1 at a sample input: the frame of [{"a":"é"}], cut after its fifth
    byte. *)
Lemma X1_witness :
  Utf8.toString (take 5 Samples.e_acute_frame ++ drop 5 Samples.e_acute_frame)
  = Utf8.toString (take 5 Samples.e_acute_frame)
    ++ Utf8.toString (drop 5 Samples.e_acute_frame) /\
  Proxy.stdout_on_data Json.parses
    (Proxy.stdout_on_data Json.parses (Proxy.connection Proxy.OPEN)
       (take 5 Samples.e_acute_frame))
    (drop 5 Samples.e_acute_frame)
  = Proxy.stdout_on_data Json.parses (Proxy.connection Proxy.OPEN)
      (take 5 Samples.e_acute_frame ++ drop 5 Samples.e_acute_frame).
Proof.
  assert (Utf8.toString (take 5 Samples.e_acute_frame ++ drop 5 Samples.e_acute_frame)
          = Utf8.toString (take 5 Samples.e_acute_frame)
            ++ Utf8.toString (drop 5 Samples.e_acute_frame)) as H1
    by (vm_compute; reflexivity).
  split; [exact H1|].
  exact (X1_cut_between_characters Json.parses (Proxy.connection Proxy.OPEN)
           (take 5 Samples.e_acute_frame) (drop 5 Samples.e_acute_frame) H1).
Defined.

(** X2 at a sample input: two frames in three chunks, the cuts inside the
    first header and inside the second body. *)
Lemma X2_witness :
  take 7 Samples.two_frames
    ++ concat [take 55 (drop 7 Samples.two_frames); drop 62 Samples.two_frames]
  = concat (map (fun m => Utf8.encode (Proxy.lspMessage m)) Samples.two_messages) /\
  Proxy.stdout_on_chunks Json.parses (Proxy.connection Proxy.OPEN)
    [take 7 Samples.two_frames; take 55 (drop 7 Samples.two_frames);
     drop 62 Samples.two_frames]
  = Proxy.Session [] Proxy.OPEN [] Samples.two_messages.
Proof.
  assert (Forall Utf8.is_ascii Samples.two_messages) as H1.
  { repeat (apply List.Forall_cons; [by apply ascii_check|]). apply List.Forall_nil. }
  assert (Forall (fun m => Json.parses m = true) Samples.two_messages) as H2.
  { repeat (apply List.Forall_cons; [vm_compute; reflexivity|]). apply List.Forall_nil. }
  assert (take 7 Samples.two_frames
            ++ concat [take 55 (drop 7 Samples.two_frames); drop 62 Samples.two_frames]
          = concat (map (fun m => Utf8.encode (Proxy.lspMessage m)) Samples.two_messages))
    as H3 by (vm_compute; reflexivity).
  split; [exact H3|].
  exact (X2_ascii_frames_any_chunking Json.parses Samples.two_messages
           (take 7 Samples.two_frames)
           [take 55 (drop 7 Samples.two_frames); drop 62 Samples.two_frames] H1 H2 H3).
Defined.

(** X3 at a sample input: the frame of [{"a":1,"b":2}] in the buffer. *)
Lemma X3_witness :
  Proxy.loop_body Json.parses Proxy.OPEN (Proxy.frame_text 13 Samples.ab_message)
  = Proxy.Continue [] [Samples.ab_message] /\
  exists h ds,
    Js.indexOf (Proxy.frame_text 13 Samples.ab_message) Proxy.CRLFCRLF = h /\
    Js.match_Content_Length (Js.substring (Proxy.frame_text 13 Samples.ab_message) 0 h)
    = Some ds /\
    h + 4 + Js.parseInt ds <= Z.of_nat (length (Proxy.frame_text 13 Samples.ab_message)) /\
    Samples.ab_message
    = Js.substring (Proxy.frame_text 13 Samples.ab_message) (h + 4) (h + 4 + Js.parseInt ds) /\
    Z.of_nat (length Samples.ab_message) = Js.parseInt ds /\ @nil (list Z) = [].
Proof.
  assert (Proxy.loop_body Json.parses Proxy.OPEN (Proxy.frame_text 13 Samples.ab_message)
          = Proxy.Continue [] [Samples.ab_message]) as H1 by (vm_compute; reflexivity).
  split; [exact H1|].
  exact (X3_no_partial_emission Json.parses Proxy.OPEN
           (Proxy.frame_text 13 Samples.ab_message) [] Samples.ab_message [] H1).
Defined.

(** X4 at a sample input: a buffer of 33 code units and a cap of nine
    rounds. *)
Lemma X4_witness :
  (length (Samples.junk_header ++ Proxy.CRLFCRLF ++ Samples.bad_body) / 4 < 9)%nat /\
  Proxy.loop Json.parses 9 Proxy.OPEN
    (Samples.junk_header ++ Proxy.CRLFCRLF ++ Samples.bad_body)
  = Proxy.drain Json.parses Proxy.OPEN
      (Samples.junk_header ++ Proxy.CRLFCRLF ++ Samples.bad_body).
Proof.
  assert (length (Samples.junk_header ++ Proxy.CRLFCRLF ++ Samples.bad_body) / 4 < 9)%nat
    as H1 by (vm_compute; lia).
  split; [exact H1|].
  exact (proj1 (X4_loop_ends Json.parses Proxy.OPEN
                  (Samples.junk_header ++ Proxy.CRLFCRLF ++ Samples.bad_body) 9 H1)).
Defined.

(** X7 at a sample input: a frame that declares 13 and is followed by the
    start of the next header. *)
Lemma X7_witness :
  0 <= 13 /\
  Proxy.loop_body Json.parses Proxy.OPEN
    (Proxy.frame_text 13 (Samples.ab_message ++ Js.lit "Content-"))
  = if Z.of_nat (length (Samples.ab_message ++ Js.lit "Content-")) <? 13 then Proxy.Break
    else Proxy.Continue (drop (Z.to_nat 13) (Samples.ab_message ++ Js.lit "Content-"))
           (if Json.parses (take (Z.to_nat 13) (Samples.ab_message ++ Js.lit "Content-"))
            then if Proxy.OPEN =? Proxy.OPEN
                 then [take (Z.to_nat 13) (Samples.ab_message ++ Js.lit "Content-")]
                 else []
            else []).
Proof.
  assert (0 <= 13) as H1 by lia.
  split; [exact H1|].
  exact (X7_body_is_n_code_units Json.parses Proxy.OPEN 13
           (Samples.ab_message ++ Js.lit "Content-") H1).
Defined.

(** X14 at a sample input: one hover request outstanding. *)
Lemma X14_witness :
  Client.pendingRequests
    (Client.session [Client.Call_setConnectionStatusHandler] Samples.hover_asked) !! 1
  = Some Client.AwaitedByCaller /\
  1 ∈ Client.request_ids
        (Client.sent
           (Client.session [Client.Call_setConnectionStatusHandler] Samples.hover_asked)) /\
  is_Some
    (Client.timers
       (Client.session [Client.Call_setConnectionStatusHandler] Samples.hover_asked) !! 1) /\
  Client.settlements 1
    (Client.settled
       (Client.session [Client.Call_setConnectionStatusHandler] Samples.hover_asked))
  = [].
Proof.
  assert (Client.pendingRequests
            (Client.session [Client.Call_setConnectionStatusHandler] Samples.hover_asked) !! 1
          = Some Client.AwaitedByCaller) as H1 by (vm_compute; reflexivity).
  split; [exact H1|].
  exact (X14_pending_requests_wait [Client.Call_setConnectionStatusHandler]
           Samples.hover_asked 1 Client.AwaitedByCaller H1).
Defined.

(** X15 at a sample input: the same connection after the response and a
    late timeout. *)
Lemma X15_witness :
  forallb (fun e => negb (Usage.is_disconnect e))
    ([Client.Call_setConnectionStatusHandler]
     ++ Samples.hover_asked ++ [Client.Ws_message Samples.response_1; Client.Timeout 1])
  = true /\
  ((is_Some
      (Client.pendingRequests
         (Client.session [Client.Call_setConnectionStatusHandler]
            (Samples.hover_asked
             ++ [Client.Ws_message Samples.response_1; Client.Timeout 1])) !! 1) /\
    Client.settlements 1
      (Client.settled
         (Client.session [Client.Call_setConnectionStatusHandler]
            (Samples.hover_asked
             ++ [Client.Ws_message Samples.response_1; Client.Timeout 1])))
    = []) \/
   (Client.pendingRequests
      (Client.session [Client.Call_setConnectionStatusHandler]
         (Samples.hover_asked
          ++ [Client.Ws_message Samples.response_1; Client.Timeout 1])) !! 1
    = None /\
    length
      (Client.settlements 1
         (Client.settled
            (Client.session [Client.Call_setConnectionStatusHandler]
               (Samples.hover_asked
                ++ [Client.Ws_message Samples.response_1; Client.Timeout 1]))))
    = 1%nat)).
Proof.
  assert (forallb (fun e => negb (Usage.is_disconnect e))
            ([Client.Call_setConnectionStatusHandler]
             ++ Samples.hover_asked
             ++ [Client.Ws_message Samples.response_1; Client.Timeout 1])
          = true) as H1 by reflexivity.
  assert (1 <= 1 <= Client.messageId
                      (Client.session [Client.Call_setConnectionStatusHandler]
                         (Samples.hover_asked
                          ++ [Client.Ws_message Samples.response_1; Client.Timeout 1])))
    as H2 by (vm_compute; split; intros H; discriminate H).
  split; [exact H1|].
  exact (X15_no_request_lost [Client.Call_setConnectionStatusHandler]
           (Samples.hover_asked ++ [Client.Ws_message Samples.response_1; Client.Timeout 1])
           1 H1 H2).
Defined.

(** X16 at a sample input: the response to the outstanding hover
    request. *)
Lemma X16_witness :
  Client.id Samples.response_1 = Some (Client.Num 1) /\
  Client.pendingRequests Samples.hover_pending !! 1 = Some Client.AwaitedByCaller /\
  Client.timers (Client.onmessage Samples.hover_pending Samples.response_1) !! 1 = None /\
  Client.step (Client.onmessage Samples.hover_pending Samples.response_1) (Client.Timeout 1)
  = Client.onmessage Samples.hover_pending Samples.response_1.
Proof.
  assert (Client.pendingRequests Samples.hover_pending !! 1 = Some Client.AwaitedByCaller)
    as H2 by (vm_compute; reflexivity).
  split; [reflexivity|]. split; [exact H2|].
  exact (X16_response_clears_the_timeout Samples.hover_pending Samples.response_1 1
           Client.AwaitedByCaller eq_refl H2).
Defined.

(** X17 at a sample input: the same response delivered twice. *)
Lemma X17_witness :
  Client.pendingRequests Samples.hover_pending !! 1 = Some Client.AwaitedByCaller /\
  Client.method Samples.response_1 = None /\
  Client.onmessage (Client.onmessage Samples.hover_pending Samples.response_1)
    Samples.response_1
  = Client.onmessage Samples.hover_pending Samples.response_1.
Proof.
  assert (Client.pendingRequests Samples.hover_pending !! 1 = Some Client.AwaitedByCaller)
    as H2 by (vm_compute; reflexivity).
  split; [exact H2|]. split; [reflexivity|].
  exact (X17_duplicate_response_ignored Samples.hover_pending Samples.response_1 1
           Client.AwaitedByCaller eq_refl H2 eq_refl).
Defined.

(** X19 at a sample input: [disconnect()] with the hover request
    outstanding, then its response and its timeout. *)
Lemma X19_witness :
  Client.pendingRequests
    (Client.session [Client.Call_setConnectionStatusHandler] Samples.hover_asked) !! 1
  = Some Client.AwaitedByCaller /\
  Client.settlements 1
    (Client.settled
       (Client.run
          (Client.disconnect
             (Client.session [Client.Call_setConnectionStatusHandler] Samples.hover_asked))
          [Client.Ws_message Samples.response_1; Client.Timeout 1]))
  = [].
Proof.
  assert (Client.pendingRequests
            (Client.session [Client.Call_setConnectionStatusHandler] Samples.hover_asked) !! 1
          = Some Client.AwaitedByCaller) as H1 by (vm_compute; reflexivity).
  split; [exact H1|].
  exact (X19_disconnect_gives_up_pending_requests [Client.Call_setConnectionStatusHandler]
           Samples.hover_asked [Client.Ws_message Samples.response_1; Client.Timeout 1]
           1 Client.AwaitedByCaller H1).
Defined.

(** X20 at a sample input: the server answers [initialize] with an
    error. *)
Lemma X20_witness :
  Client.pendingRequests Samples.initialize_pending !! 1 = Some Client.AwaitedByInitialize /\
  Client.timers Samples.initialize_pending !! 1 = Some "initialize" /\
  Client.sent
    (Client.onmessage Samples.initialize_pending
       (Client.response 1 (Some "server not ready") Client.Undefined))
  = Client.sent Samples.initialize_pending /\
  Client.isInitialized
    (Client.onmessage Samples.initialize_pending
       (Client.response 1 (Some "server not ready") Client.Undefined))
  = Client.isInitialized Samples.initialize_pending /\
  Client.settled
    (Client.onmessage Samples.initialize_pending
       (Client.response 1 (Some "server not ready") Client.Undefined))
  = Client.settled Samples.initialize_pending ++ [(1, Client.Rejected "server not ready")].
Proof.
  assert (Client.pendingRequests Samples.initialize_pending !! 1
          = Some Client.AwaitedByInitialize) as H1 by (vm_compute; reflexivity).
  assert (Client.timers Samples.initialize_pending !! 1 = Some "initialize") as H2
    by (vm_compute; reflexivity).
  split; [exact H1|]. split; [exact H2|].
  exact (proj1 (X20_failed_handshake Samples.initialize_pending 1 "server not ready"
                  Client.Undefined "initialize" H1 H2)).
Defined.

(** X21 at a sample input: two calls on a socket that has just opened. *)
Lemma X21_witness :
  Client.isInitialized Samples.open_client = false /\
  Client.ws Samples.open_client = Some Client.OPEN /\
  Client.sent (fst (Client.initialize (fst (Client.initialize Samples.open_client))))
  = Client.sent Samples.open_client
    ++ [Client.Request (Client.messageId Samples.open_client + 1) "initialize"
          Client.initialize_params;
        Client.Request (Client.messageId Samples.open_client + 2) "initialize"
          Client.initialize_params].
Proof.
  split; [reflexivity|]. split; [reflexivity|].
  exact (X21_initialize_while_waiting Samples.open_client eq_refl eq_refl).
Defined.

(** X24 at a sample input: a publish for the library after the three
    publishes. *)
Lemma X24_witness :
  "file:///library.sysml" <> "file:///main.sysml" /\
  filter (fun error => Editor.uri error = "file:///main.sysml")
    (Editor.publishDiagnostics "file:///library.sysml" [Samples.unresolved_import]
       (Editor.currentErrors_after [] Samples.publishes))
  = filter (fun error => Editor.uri error = "file:///main.sysml")
      (Editor.currentErrors_after [] Samples.publishes).
Proof.
  assert ("file:///library.sysml" <> "file:///main.sysml") as H1 by discriminate.
  split; [exact H1|].
  exact (X24_other_documents_untouched "file:///library.sysml" "file:///main.sysml"
           [Samples.unresolved_import] (Editor.currentErrors_after [] Samples.publishes) H1).
Defined.

(** X26 at a sample input: a tour of the tabs from the mounted
    component. *)
Lemma X26_witness :
  Ui.in_order Ui.mounted /\ Ui.in_order (Ui.acts Ui.mounted Samples.tour).
Proof.
  split; [exact in_order_mounted|].
  exact (X26_tabs_stay_in_order Ui.mounted Samples.tour in_order_mounted).
Defined.

(** X27 at a sample input: closing the active file of the mounted
    component. *)
Lemma X27_witness :
  Ui.in_order Ui.mounted /\
  Ui.main_file ∈ Ui.openFiles Ui.mounted /\
  (2 <= length (Ui.openFiles Ui.mounted))%nat /\
  Ui.openFiles (Ui.closeFile Ui.mounted (Ui.id Ui.main_file))
  = filter (fun g => Ui.id g <> Ui.id Ui.main_file) (Ui.openFiles Ui.mounted) /\
  S (length (Ui.openFiles (Ui.closeFile Ui.mounted (Ui.id Ui.main_file))))
  = length (Ui.openFiles Ui.mounted).
Proof.
  assert (Ui.main_file ∈ Ui.openFiles Ui.mounted) as H2 by (by left).
  assert (2 <= length (Ui.openFiles Ui.mounted))%nat as H3 by (simpl; lia).
  split; [exact in_order_mounted|]. split; [exact H2|]. split; [exact H3|].
  pose proof (X27_closing_a_file Ui.mounted Ui.main_file in_order_mounted H2 H3) as H.
  exact (conj (proj1 H) (proj1 (proj2 H))).
Defined.

(** X29 at a sample input: a problem of the library while the main file
    is active. *)
Lemma X29_witness :
  Ui.in_order Ui.mounted /\
  Ui.library_file ∈ Ui.openFiles Ui.mounted /\
  Ui.activeFileId
    (Ui.jumpToError Ui.mounted
       (Editor.line (Editor.newError (Ui.uri Ui.library_file) Samples.unused_port))
       (Editor.column (Editor.newError (Ui.uri Ui.library_file) Samples.unused_port))
       (Editor.uri (Editor.newError (Ui.uri Ui.library_file) Samples.unused_port)))
  = Ui.id Ui.library_file.
Proof.
  assert (Ui.library_file ∈ Ui.openFiles Ui.mounted) as H2 by (right; by left).
  split; [exact in_order_mounted|]. split; [exact H2|].
  exact (proj1 (X29_jump_to_a_problem Ui.mounted Ui.library_file Samples.unused_port
                  in_order_mounted H2)).
Defined.


(** X30 at a sample input: the server answers [initialize] with [{}]. *)
Lemma X30_witness :
  Usage.property (Client.Object []) "capabilities" = Some Client.Undefined /\
  Client.sent
    (Usage.connectToLSP
       [Usage.Model "file:///main.sysml" "package MainPackage {}"] (Client.Object []))
  = [Client.Request 1 "initialize" Client.initialize_params;
     Client.Notification "initialized" (Client.Object [])].
Proof.
  split; [reflexivity|].
  exact (proj1 (X30_no_capabilities_no_documents
                  [Usage.Model "file:///main.sysml" "package MainPackage {}"]
                  (Client.Object []) (or_intror (or_introl eq_refl)))).
Defined.
